(** * The nginx log watcher of the blue/green deployment (watcher.py)

    A shallow embedding of [src/watcher.py] and the properties of its
    streaming log analysis: the line parser ([LOG_PATTERN], [int]), the
    sliding window ([deque(maxlen=WINDOW_SIZE)]), the failover detector
    ([detect_failover]), the error-rate monitor ([check_error_rate]), the
    cooldown of the two alert categories and the driver loop ([tail_log]).

    Conventions of the embedding.
    - A Python [str] is a [string]; its characters are the code points below
      256 (Latin-1), which is where the whitespace and the digits used by the
      log format live.
    - A Python [int] is a [Z]; a Python [float] is a primitive binary64
      [float], so that the arithmetic of the error rate and of the clock is
      the one the interpreter performs.
    - The module-level globals are the fields of [state]; the functions are
      written in a state-and-exception monad that also collects, in program
      order, what the program does ([event]). *)

From Stdlib Require Import ZArith List Bool Ascii String Lia.
From Stdlib Require Import PrimFloat FloatOps SpecFloat Uint63.
From Stdlib Require DecimalString DecimalPos DecimalZ FloatAxioms.
Import ListNotations.

Local Open Scope Z_scope.

(** ** Text: whitespace, [str.strip], [str.split], [int] *)

Module Text.

Local Open Scope string_scope.

(** The characters [str.isspace], [str.strip], [int] and the regular
    expression classes [\s] and [\S] regard as whitespace, among the code
    points below 256: TAB, LF, VT, FF, CR, the separators FS, GS, RS and US,
    SPACE, NEL and the no-break space. *)
Definition is_space (c : ascii) : bool :=
  let n := N_of_ascii c in
  (((9 <=? n) && (n <=? 13)) || ((28 <=? n) && (n <=? 32))
   || (n =? 133) || (n =? 160))%N.

Definition is_digit (c : ascii) : bool :=
  let n := N_of_ascii c in ((48 <=? n) && (n <=? 57))%N.

Definition digit_value (c : ascii) : Z := Z.of_N (N_of_ascii c) - 48.

Fixpoint lstrip (s : string) : string :=
  match s with
  | String c r => if is_space c then lstrip r else s
  | EmptyString => EmptyString
  end.

Fixpoint rstrip (s : string) : string :=
  match s with
  | String c r =>
      match rstrip r with
      | EmptyString => if is_space c then EmptyString else String c EmptyString
      | r' => String c r'
      end
  | EmptyString => EmptyString
  end.

(** [s.strip()] *)
Definition strip (s : string) : string := rstrip (lstrip s).

(** [s.split(sep)] for a one-character separator: never the empty list. *)
Fixpoint split (sep : ascii) (s : string) : list string :=
  match s with
  | EmptyString => [EmptyString]
  | String c r =>
      if Ascii.eqb c sep then EmptyString :: split sep r
      else match split sep r with
           | h :: t => String c h :: t
           | [] => [String c EmptyString]
           end
  end.

(** [l[-1]] on the result of a split. *)
Definition last_item (l : list string) : string := List.last l EmptyString.

(** The digits of a decimal literal as [int] reads them: at least one digit,
    single underscores allowed between digits only. [prev] tells whether the
    previous character was a digit. *)
Fixpoint digits (s : string) (acc : Z) (prev : bool) : option Z :=
  match s with
  | EmptyString => if prev then Some acc else None
  | String c r =>
      if is_digit c then digits r (10 * acc + digit_value c) true
      else if Ascii.eqb c "_" then (if prev then digits r acc false else None)
      else None
  end.

(** [sys.int_max_str_digits], as the interpreter starts with. *)
Definition int_max_str_digits : nat := 4300.

(** The digit characters of a literal: the sign, the surrounding whitespace
    and the underscores do not count towards the cap. *)
Fixpoint count_digits (s : string) : nat :=
  match s with
  | EmptyString => O
  | String c r => if is_digit c then S (count_digits r) else count_digits r
  end.

(** A decimal literal without its sign: a well-formed literal of more than
    [int_max_str_digits] digits is refused too. *)
Definition literal (s : string) : option Z :=
  match digits s 0 false with
  | Some z => if (int_max_str_digits <? count_digits s)%nat then None else Some z
  | None => None
  end.

(** [int(s)] in base 10: surrounding whitespace is dropped, one sign is
    allowed, the number of digits is capped; [None] stands for
    [ValueError]. *)
Definition py_int (s : string) : option Z :=
  match strip s with
  | String "+" r => literal r
  | String "-" r => option_map Z.opp (literal r)
  | t => literal t
  end.

End Text.

(** ** Regular expressions: the fragment [LOG_PATTERN] is written in *)

Module Regex.

Local Open Scope string_scope.

Inductive cclass : Type :=
| Space      (* \s *)
| NonSpace.  (* \S *)

Definition in_class (c : cclass) (a : ascii) : bool :=
  match c with
  | Space => Text.is_space a
  | NonSpace => negb (Text.is_space a)
  end.

Inductive regex : Type :=
| Lit (p : string)                   (* literal text *)
| Plus (c : cclass)                  (* \s+ or \S+, greedy *)
| Group (name : string) (r : regex)  (* (?P<name>...) *)
| Cat (r1 r2 : regex).               (* concatenation *)

(** The groups of a match, most recent first. *)
Definition captures : Type := list (string * string).

Fixpoint group (name : string) (m : captures) : string :=
  match m with
  | (n, v) :: m' => if String.eqb n name then v else group name m'
  | [] => EmptyString
  end.

Fixpoint strip_prefix (p s : string) : option string :=
  match p, s with
  | EmptyString, _ => Some s
  | String a p', String b s' => if Ascii.eqb a b then strip_prefix p' s' else None
  | String _ _, EmptyString => None
  end.

Fixpoint take (n : nat) (s : string) : string :=
  match n, s with
  | S n', String c r => String c (take n' r)
  | _, _ => EmptyString
  end.

(** A backtracking matcher in continuation-passing style, as the [re]
    engine runs: [k] is tried on what is left of the subject, the longest
    repetition first. *)
Section Exec.

Context {R : Type}.

Fixpoint star (c : cclass) (s : string) (k : string -> option R) : option R :=
  match s with
  | String a r =>
      if in_class c a then
        match star c r k with
        | Some x => Some x
        | None => k s
        end
      else k s
  | EmptyString => k EmptyString
  end.

Definition plus (c : cclass) (s : string) (k : string -> option R) : option R :=
  match s with
  | String a r => if in_class c a then star c r k else None
  | EmptyString => None
  end.

Fixpoint exec (r : regex) (s : string) (m : captures)
         (k : string -> captures -> option R) : option R :=
  match r with
  | Lit p =>
      match strip_prefix p s with
      | Some rest => k rest m
      | None => None
      end
  | Plus c => plus c s (fun rest => k rest m)
  | Group n r1 =>
      exec r1 s m
           (fun rest m' => k rest ((n, take (String.length s - String.length rest) s) :: m'))
  | Cat r1 r2 => exec r1 s m (fun rest m' => exec r2 rest m' k)
  end.

End Exec.

(** [r.match(s)]: a match anchored at the start of [s]. *)
Definition match_here (r : regex) (s : string) : option captures :=
  exec r s [] (fun _ m => Some m).

(** [r.search(s)]: the match at the leftmost position that has one. *)
Fixpoint search (r : regex) (s : string) : option captures :=
  match match_here r s with
  | Some m => Some m
  | None =>
      match s with
      | String _ s' => search r s'
      | EmptyString => None
      end
  end.

(** The words of a class repetition. *)
Fixpoint all_in (c : cclass) (w : string) : Prop :=
  match w with
  | String a r => in_class c a = true /\ all_in c r
  | EmptyString => True
  end.

(** [matches r w m m']: the word [w] belongs to [r], and matching it turns
    the groups [m] into [m']. *)
Inductive matches : regex -> string -> captures -> captures -> Prop :=
| M_lit p m : matches (Lit p) p m m
| M_plus c w m : w <> EmptyString -> all_in c w -> matches (Plus c) w m m
| M_group n r w m m' :
    matches r w m m' -> matches (Group n r) w m ((n, w) :: m')
| M_cat r1 r2 u v m m1 m2 :
    matches r1 u m m1 -> matches r2 v m1 m2 -> matches (Cat r1 r2) (u ++ v) m m2.

End Regex.

(** ** The watcher: configuration, globals, effects *)

Import Regex.

(** The configuration read from the environment when the module is loaded.
    [WINDOW_SIZE] is a natural number: with a negative value
    [deque(maxlen=WINDOW_SIZE)] raises and the program never starts. The
    labels [DEPLOYMENT_OWNER] and [ENVIRONMENT_NAME] only decorate the text
    sent to Slack and are left out. *)
Record config : Type := Config {
  SLACK_WEBHOOK : string;
  ERROR_THRESHOLD : float;
  WINDOW_SIZE : nat;
  COOLDOWN : Z;
  MAINTENANCE_MODE : bool
}.

(** The defaults of [os.getenv]. *)
Definition default_config : config :=
  Config EmptyString 2%float 200%nat 300 false.

(** The globals of the module, with the number of [time.time()] calls made
    so far ([reads]), which indexes the readings of the clock. *)
Record state : Type := State {
  last_pool : option string;
  last_failover_alert : float;
  last_error_alert : float;
  request_window : list Z;
  reads : nat
}.

Definition initial_state : state := State None 0%float 0%float [] 0%nat.

Inductive alert_type : Type :=
| Failover_alert  (* "failover" *)
| Error_alert.    (* "error" *)

(** What an alert text is formatted from. *)
Inductive message : Type :=
| Failover_message (old new : string)
| Error_message (error_rate threshold : float) (window errors len : nat).

Definition category (msg : message) : alert_type :=
  match msg with
  | Failover_message _ _ => Failover_alert
  | Error_message _ _ _ _ _ => Error_alert
  end.

Inductive indicator : Type := Fine | Warning | Failed.

(** What the program does, in program order. The first five are its
    outputs: four console lines and the HTTP request to the webhook (the
    console line that reports the answer of the webhook depends on the
    network and changes nothing; it is left out). The last four mark program
    points: the append to the window (line 179), the two calls made by
    [process_log_line] (lines 187 and 190), and the evaluation of a cooldown
    test (lines 124-125 and 148-149) with the reading of the clock it used
    and its outcome. *)
Inductive event : Type :=
| Printed_initial_pool (pool : string)
| Printed_activity (i : indicator) (pool : string) (status : Z)
| Printed_failover (old new : string)
| Printed_suppressed (t : alert_type)
| Posted (url : string) (t : alert_type) (msg : message)
| Appended (status : Z)
| Called_detect_failover (pool : string)
| Called_check_error_rate
| Triggered (msg : message) (now : float) (passed : bool).

Inductive exn : Type := ZeroDivisionError.

Inductive result (A : Type) : Type :=
| Ok (a : A)
| Raise (e : exn).

Arguments Ok {A} a.
Arguments Raise {A} e.

(** A computation: from the globals to what it did, the globals it leaves
    and its result. *)
Definition M (A : Type) : Type := state -> list event * state * result A.

Definition ret {A : Type} (a : A) : M A := fun st => ([], st, Ok a).

Definition bind {A B : Type} (m : M A) (f : A -> M B) : M B :=
  fun st =>
    match m st with
    | (ev1, st1, Ok a) =>
        match f a st1 with
        | (ev2, st2, r) => (ev1 ++ ev2, st2, r)
        end
    | (ev1, st1, Raise e) => (ev1, st1, Raise e)
    end.

Definition raise {A : Type} (e : exn) : M A := fun st => ([], st, Raise e).

Definition emit (e : event) : M unit := fun st => ([e], st, Ok tt).

Definition gets {A : Type} (f : state -> A) : M A := fun st => ([], st, Ok (f st)).

Definition modify (f : state -> state) : M unit := fun st => ([], f st, Ok tt).

Declare Scope watcher_scope.
Delimit Scope watcher_scope with watcher.

Notation "x <- m ;; k" := (bind m (fun x => k))
  (at level 100, m at next level, right associativity) : watcher_scope.
Notation "m ;; k" := (bind m (fun _ => k))
  (at level 100, right associativity) : watcher_scope.

Definition events {A : Type} (o : list event * state * result A) : list event :=
  fst (fst o).
Definition final {A : Type} (o : list event * state * result A) : state :=
  snd (fst o).
Definition outcome {A : Type} (o : list event * state * result A) : result A :=
  snd o.

Definition set_last_pool (p : string) (st : state) : state :=
  State (Some p) (last_failover_alert st) (last_error_alert st)
        (request_window st) (reads st).

Definition set_last_failover_alert (t : float) (st : state) : state :=
  State (last_pool st) t (last_error_alert st) (request_window st) (reads st).

Definition set_last_error_alert (t : float) (st : state) : state :=
  State (last_pool st) (last_failover_alert st) t (request_window st) (reads st).

Definition set_request_window (w : list Z) (st : state) : state :=
  State (last_pool st) (last_failover_alert st) (last_error_alert st) w (reads st).

Definition tick (st : state) : state :=
  State (last_pool st) (last_failover_alert st) (last_error_alert st)
        (request_window st) (S (reads st)).

(** ** Numbers *)

(** A Python [int] in a float operation; exact below 2^53, which the
    lengths and the counts of a window that fits in memory are. *)
Definition float_of_nat (n : nat) : float :=
  PrimFloat.of_uint63 (Uint63.of_Z (Z.of_nat n)).

(** [f > z] for a float [f] and an int [z]: Python compares the two exactly. *)
Definition float_gt_int (f : float) (z : Z) : bool :=
  match Prim2SF f with
  | S754_nan => false
  | S754_infinity negative => negb negative
  | S754_zero _ => z <? 0
  | S754_finite negative m e =>
      let v := if negative then Z.neg m else Z.pos m in
      if 0 <=? e then z <? v * 2 ^ e else z * 2 ^ (- e) <? v
  end.

(** [deque.append] on a deque built with [maxlen]: the item goes to the
    right end, then the left end is dropped if the length exceeds [maxlen]. *)
Definition deque_append (maxlen : nat) (w : list Z) (x : Z) : list Z :=
  let w' := w ++ [x] in
  if (maxlen <? List.length w')%nat then tl w' else w'.

(** [sum(1 for status in request_window if status >= 500)] *)
Definition count_errors (w : list Z) : nat :=
  List.length (filter (fun status => 500 <=? status) w).

(** ** The functions of watcher.py *)

Section Watcher.

Variable cfg : config.

(** The readings of the system clock: [clock n] is what the [n]-th call of
    [time.time()] returns. *)
Variable clock : nat -> float.

Local Open Scope watcher_scope.

(** [time.time()] *)
Definition time_time : M float :=
  now <- gets (fun st => clock (reads st)) ;;
  modify tick ;;
  ret now.

(** [send_slack_alert(message, alert_type)], lines 43-110. *)
Definition send_slack_alert (msg : message) (t : alert_type) : M unit :=
  if String.eqb (SLACK_WEBHOOK cfg) EmptyString || MAINTENANCE_MODE cfg
  then emit (Printed_suppressed t)
  else emit (Posted (SLACK_WEBHOOK cfg) t msg).

(** [errors / len(request_window)]: true division of two ints. *)
Definition true_div (a b : nat) : M float :=
  match b with
  | O => raise ZeroDivisionError
  | S _ => ret (float_of_nat a / float_of_nat b)%float
  end.

(** [check_error_rate()], lines 113-135. *)
Definition check_error_rate : M unit :=
  window <- gets request_window ;;
  if (List.length window <? WINDOW_SIZE cfg)%nat then ret tt
  else
    let errors := count_errors window in
    q <- true_div errors (List.length window) ;;
    let error_rate := (q * 100)%float in
    if (ERROR_THRESHOLD cfg <? error_rate)%float then
      now <- time_time ;;
      last <- gets last_error_alert ;;
      let msg := Error_message error_rate (ERROR_THRESHOLD cfg) (WINDOW_SIZE cfg)
                               errors (List.length window) in
      let passed := float_gt_int (now - last)%float (COOLDOWN cfg) in
      emit (Triggered msg now passed) ;;
      if passed then
        send_slack_alert msg Error_alert ;;
        modify (set_last_error_alert now)
      else ret tt
    else ret tt.

(** [detect_failover(current_pool)], lines 138-160. *)
Definition detect_failover (current_pool : string) : M unit :=
  tracked <- gets last_pool ;;
  match tracked with
  | None =>
      modify (set_last_pool current_pool) ;;
      emit (Printed_initial_pool current_pool)
  | Some old =>
      if negb (String.eqb current_pool old) then
        now <- time_time ;;
        last <- gets last_failover_alert ;;
        let msg := Failover_message old current_pool in
        let passed := float_gt_int (now - last)%float (COOLDOWN cfg) in
        emit (Triggered msg now passed) ;;
        (if passed then
           send_slack_alert msg Failover_alert ;;
           modify (set_last_failover_alert now) ;;
           emit (Printed_failover old current_pool)
         else ret tt) ;;
        modify (set_last_pool current_pool)
      else ret tt
  end.

End Watcher.

(** [LOG_PATTERN], lines 36-40:
    [pool=(?P<pool>\S+)\s+release=(?P<release>\S+)\s+upstream_status=(?P<status>\S+)] *)
Definition LOG_PATTERN : regex :=
  Cat (Lit "pool=")
 (Cat (Group "pool" (Plus NonSpace))
 (Cat (Plus Space)
 (Cat (Lit "release=")
 (Cat (Group "release" (Plus NonSpace))
 (Cat (Plus Space)
 (Cat (Lit "upstream_status=")
      (Group "status" (Plus NonSpace)))))))).

(** Lines 172-176: [int(status_str.split(':')[-1].strip())], 0 on
    [ValueError]. *)
Definition parse_status (status_str : string) : Z :=
  match Text.py_int (Text.strip (Text.last_item (Text.split ":" status_str))) with
  | Some status => status
  | None => 0
  end.

(** Line 182. *)
Definition status_emoji (status : Z) : indicator :=
  if status <? 400 then Fine else if status <? 500 then Warning else Failed.

(** Line 186: [pool and pool != '-']. *)
Definition valid_pool (pool : string) : bool :=
  negb (String.eqb pool EmptyString) && negb (String.eqb pool "-").

Section Driver.

Variable cfg : config.
Variable clock : nat -> float.

Local Open Scope watcher_scope.

(** [process_log_line(line)], lines 163-190. *)
Definition process_log_line (line : string) : M unit :=
  match search LOG_PATTERN line with
  | Some m =>
      let pool := group "pool" m in
      let status := parse_status (group "status" m) in
      modify (fun st =>
                set_request_window
                  (deque_append (WINDOW_SIZE cfg) (request_window st) status) st) ;;
      emit (Appended status) ;;
      emit (Printed_activity (status_emoji status) pool status) ;;
      (if valid_pool pool then
         emit (Called_detect_failover pool) ;;
         detect_failover cfg clock pool
       else ret tt) ;;
      emit Called_check_error_rate ;;
      check_error_rate cfg clock
  | None => ret tt
  end.

(** The loop of [tail_log], lines 230-232, over the lines that [tail]
    delivers; an exception ends it (lines 237-242). *)
Fixpoint tail_log (lines : list string) : M unit :=
  match lines with
  | [] => ret tt
  | line :: rest =>
      (if String.eqb line EmptyString then ret tt
       else process_log_line (Text.strip line)) ;;
      tail_log rest
  end.

End Driver.

(** ** The vocabulary of the properties *)

Module Tokens.

Local Open Scope string_scope.

(** A value of the log format: a non-empty run without whitespace. *)
Definition token (w : string) : Prop := w <> "" /\ all_in NonSpace w.

(** What separates two fields: a non-empty run of whitespace. *)
Definition blank (w : string) : Prop := w <> "" /\ all_in Space w.



End Tokens.

Import Tokens.

(** ** Reading a trace *)

(** The one event of [send_slack_alert]. *)
Definition sink_event (cfg : config) (msg : message) (t : alert_type) : event :=
  if String.eqb (SLACK_WEBHOOK cfg) EmptyString || MAINTENANCE_MODE cfg
  then Printed_suppressed t
  else Posted (SLACK_WEBHOOK cfg) t msg.

Definition alert_type_eqb (a b : alert_type) : bool :=
  match a, b with
  | Failover_alert, Failover_alert | Error_alert, Error_alert => true
  | _, _ => false
  end.

(** The cooldown tests of a category, in order: what was to be reported,
    the reading of the clock and whether the test passed. *)
Fixpoint triggers (t : alert_type) (evs : list event) : list (message * float * bool) :=
  match evs with
  | Triggered msg now passed :: evs' =>
      if alert_type_eqb (category msg) t
      then (msg, now, passed) :: triggers t evs'
      else triggers t evs'
  | _ :: evs' => triggers t evs'
  | [] => []
  end.

(** The failover events of a trace: the pairs (old, new) handed to the
    cooldown test of the failover category. *)
Fixpoint failover_events (evs : list event) : list (string * string) :=
  match evs with
  | Triggered (Failover_message old new) _ _ :: evs' => (old, new) :: failover_events evs'
  | _ :: evs' => failover_events evs'
  | [] => []
  end.

(** The steps of [process_log_line] in a trace: the appends to the window
    and the calls of the two checks. *)
Fixpoint steps (evs : list event) : list event :=
  match evs with
  | Appended status :: evs' => Appended status :: steps evs'
  | Called_detect_failover pool :: evs' => Called_detect_failover pool :: steps evs'
  | Called_check_error_rate :: evs' => Called_check_error_rate :: steps evs'
  | _ :: evs' => steps evs'
  | [] => []
  end.

(** The requests that reached the webhook. *)
Fixpoint posted (evs : list event) : list event :=
  match evs with
  | Posted url t msg :: evs' => Posted url t msg :: posted evs'
  | _ :: evs' => posted evs'
  | [] => []
  end.

(** The rate of line 121, for a window that is not empty: the quotient is
    rounded, then its product with 100 is. *)
Definition error_rate (w : list Z) : float :=
  (float_of_nat (count_errors w) / float_of_nat (List.length w) * 100)%float.

(** What lines 126-133 format. *)
Definition error_message (cfg : config) (w : list Z) : message :=
  Error_message (error_rate w) (ERROR_THRESHOLD cfg) (WINDOW_SIZE cfg)
                (count_errors w) (List.length w).

(** The state in which the two checks of a matched line run (line 179). *)
Definition recorded (cfg : config) (status : Z) (st : state) : state :=
  set_request_window (deque_append (WINDOW_SIZE cfg) (request_window st) status) st.

(** Lines 186-187 of a matched line. *)
Definition failover_part (cfg : config) (clock : nat -> float) (pool : string)
           (st : state) : list event * state * result unit :=
  if valid_pool pool then
    (Called_detect_failover pool :: events (detect_failover cfg clock pool st),
     final (detect_failover cfg clock pool st), Ok tt)
  else ([], st, Ok tt).

(** The clock of the examples: a reading every 100 seconds from
    1.7e9 seconds after the epoch. *)
Definition sample_clock (n : nat) : float :=
  PrimFloat.of_uint63 (Uint63.of_Z (1700000000 + 100 * Z.of_nat n)).

(** A run of [record(status)] insertions on a window. *)
Definition record_all (capacity : nat) (w : list Z) (statuses : list Z) : list Z :=
  fold_left (deque_append capacity) statuses w.

(** The breaches of a trace: the rates handed to the cooldown test of the
    error-rate category. *)
Fixpoint breaches (evs : list event) : list float :=
  match evs with
  | Triggered (Error_message rate _ _ _ _) _ _ :: evs' => rate :: breaches evs'
  | _ :: evs' => breaches evs'
  | [] => []
  end.

(** The rate in the words of the specification, 100 * count / capacity:
    the float nearest to the exact quotient. *)
Definition spec_rate (errors capacity : nat) : float :=
  (float_of_nat (100 * errors) / float_of_nat capacity)%float.

(** A window of [n] statuses of which the first [errors] are 500 and the
    others 200. *)
Definition sample_window (errors n : nat) : list Z :=
  repeat 500 errors ++ repeat 200 (n - errors).

(** A sequence of pool observations fed to the failover detector. *)
Fixpoint observe (cfg : config) (clock : nat -> float) (pools : list string) : M unit :=
  match pools with
  | [] => ret tt
  | pool :: rest => bind (detect_failover cfg clock pool) (fun _ => observe cfg clock rest)
  end.

(** The changes of pool in a sequence of observations, from what is
    tracked: nothing for the first observation, nothing for an observation
    equal to the tracked pool, the pair (old, new) for a different one. *)
Fixpoint transitions (tracked : option string) (pools : list string) : list (string * string) :=
  match pools with
  | [] => []
  | pool :: rest =>
      match tracked with
      | None => transitions (Some pool) rest
      | Some old =>
          if String.eqb pool old then transitions (Some old) rest
          else (old, pool) :: transitions (Some pool) rest
      end
  end.

(** The steps that a line delivered by [tail] calls for: none for an empty
    or unmatched line; for a matched one the append of its status, the
    failover check when its pool is valid, the error-rate check. *)
Definition line_steps (line : string) : list event :=
  if String.eqb line EmptyString then []
  else match search LOG_PATTERN (Text.strip line) with
       | Some m =>
           let pool := group "pool" m in
           Appended (parse_status (group "status" m))
             :: (if valid_pool pool then [Called_detect_failover pool] else [])
             ++ [Called_check_error_rate]
       | None => []
       end.

(** ** The cooldown rule *)

Definition last_alert (t : alert_type) (st : state) : float :=
  match t with
  | Failover_alert => last_failover_alert st
  | Error_alert => last_error_alert st
  end.

(** The cooldown tests [tr] of a category follow the rule, [last] being the
    time of the last alert before them: a test passes exactly when its
    reading of the clock, less the time of the last alert, is greater than
    the cooldown, and a test that passes makes its reading the time of the
    last alert. *)
Fixpoint governed (cooldown : Z) (last : float) (tr : list (message * float * bool)) : Prop :=
  match tr with
  | [] => True
  | (_, now, passed) :: rest =>
      passed = float_gt_int (now - last)%float cooldown
      /\ governed cooldown (if passed then now else last) rest
  end.

Fixpoint last_dispatch (last : float) (tr : list (message * float * bool)) : float :=
  match tr with
  | [] => last
  | (_, now, passed) :: rest => last_dispatch (if passed then now else last) rest
  end.

(** The readings of the tests that passed: the times of the alerts. *)
Fixpoint dispatched (tr : list (message * float * bool)) : list float :=
  match tr with
  | [] => []
  | (_, now, passed) :: rest => if passed then now :: dispatched rest else dispatched rest
  end.

(** Each time is more than the cooldown after the one before it, as the
    program measures it. *)
Fixpoint spaced (cooldown : Z) (last : float) (times : list float) : Prop :=
  match times with
  | [] => True
  | now :: rest =>
      float_gt_int (now - last)%float cooldown = true /\ spaced cooldown now rest
  end.

(** A computation from [st] that keeps the rule of category [t]. *)
Definition governs (cfg : config) (t : alert_type) (st : state)
           (o : list event * state * result unit) : Prop :=
  governed (COOLDOWN cfg) (last_alert t st) (triggers t (events o))
  /\ last_alert t (final o) = last_dispatch (last_alert t st) (triggers t (events o)).

(** What [send_slack_alert] did for a category in a trace: its requests to
    the webhook and its console lines of dropped alerts. *)
Fixpoint sends (t : alert_type) (evs : list event) : list event :=
  match evs with
  | Posted url t' msg :: evs' =>
      if alert_type_eqb t' t then Posted url t' msg :: sends t evs' else sends t evs'
  | Printed_suppressed t' :: evs' =>
      if alert_type_eqb t' t then Printed_suppressed t' :: sends t evs' else sends t evs'
  | _ :: evs' => sends t evs'
  | [] => []
  end.

(** What the cooldown tests [tr] of category [t] call for: one call of
    [send_slack_alert] for each test that passed, with what it was to
    report, and none for the others. *)
Definition due (cfg : config) (t : alert_type) (tr : list (message * float * bool))
  : list event :=
  map (fun x => sink_event cfg (fst (fst x)) t) (filter (fun x => snd x) tr).

(** A clock that is read at 1.7e9 seconds, 100 seconds later, and 400
    seconds after that. *)
Definition burst_clock (n : nat) : float :=
  match n with
  | O => 1700000000%float
  | S O => 1700000100%float
  | _ => 1700000500%float
  end.

(** Four lines whose pool flaps between blue and green. *)
Definition flapping_lines : list string :=
  ["pool=blue release=v1 upstream_status=200"%string;
   "pool=green release=v1 upstream_status=200"%string;
   "pool=blue release=v1 upstream_status=200"%string;
   "pool=green release=v1 upstream_status=200"%string].

(** ** The sink *)

(** Line 45: the sink is unconfigured or the watcher is in maintenance. *)
Definition sink_disabled (cfg : config) : bool :=
  String.eqb (SLACK_WEBHOOK cfg) EmptyString || MAINTENANCE_MODE cfg.

(** The configuration [cfg] with another webhook and maintenance flag. *)
Definition with_sink (url : string) (maintenance : bool) (cfg : config) : config :=
  Config url (ERROR_THRESHOLD cfg) (WINDOW_SIZE cfg) (COOLDOWN cfg) maintenance.

(** A request to the webhook replaced by the console line of a dropped
    alert. *)
Definition desink (e : event) : event :=
  match e with
  | Posted _ t _ => Printed_suppressed t
  | _ => e
  end.

(** A run with every request to the webhook dropped, and nothing else
    changed: the other events, the globals and the result are the same. *)
Definition mute {A : Type} (o : list event * state * result A)
  : list event * state * result A :=
  (map desink (events o), final o, outcome o).

(** A configuration with a webhook, a window of three requests and the
    default threshold and cooldown. *)
Definition small_config : config :=
  Config "https://hooks.example/T" 2%float 3 300 false.

(** ** Further vocabulary *)

(** [str(z)]: the decimal notation of an int. *)
Definition decimal (z : Z) : string :=
  DecimalString.NilEmpty.string_of_int (Z.to_int z).

(** [c not in s] *)
Fixpoint lacks (c : ascii) (s : string) : bool :=
  match s with
  | String a r => negb (Ascii.eqb a c) && lacks c r
  | EmptyString => true
  end.

(** The console marks a status with a cross (line 182). *)
Definition is_failed (i : indicator) : bool :=
  match i with
  | Failed => true
  | _ => false
  end.

(** The status that a line delivered by [tail] adds to the window, if any. *)
Definition line_status (line : string) : list Z :=
  if String.eqb line EmptyString then []
  else match search LOG_PATTERN (Text.strip line) with
       | Some m => [parse_status (group "status" m)]
       | None => []
       end.

(** The pool that a line delivered by [tail] shows to the failover
    detector, if any. *)
Definition line_pool (line : string) : list string :=
  if String.eqb line EmptyString then []
  else match search LOG_PATTERN (Text.strip line) with
       | Some m => if valid_pool (group "pool" m) then [group "pool" m] else []
       | None => []
       end.

(** The line is not empty and [LOG_PATTERN] is found in it. *)
Definition relevant (line : string) : bool :=
  negb (String.eqb line EmptyString)
  && match search LOG_PATTERN (Text.strip line) with
     | Some _ => true
     | None => false
     end.

(** The readings of the clock in a trace, in order. *)
Fixpoint readings (evs : list event) : list float :=
  match evs with
  | Triggered _ now _ :: evs' => now :: readings evs'
  | _ :: evs' => readings evs'
  | [] => []
  end.

(** What the cooldown tests that passed were to report, in order. *)
Fixpoint passed (evs : list event) : list message :=
  match evs with
  | Triggered msg _ true :: evs' => msg :: passed evs'
  | _ :: evs' => passed evs'
  | [] => []
  end.

(** What [send_slack_alert] did in a trace: the requests to the webhook and
    the console lines of the dropped alerts. *)
Fixpoint sink_events (evs : list event) : list event :=
  match evs with
  | Posted url t msg :: evs' => Posted url t msg :: sink_events evs'
  | Printed_suppressed t :: evs' => Printed_suppressed t :: sink_events evs'
  | _ :: evs' => sink_events evs'
  | [] => []
  end.

(** [s] is empty or starts with a character outside the class [c]: a
    repetition of [c] cannot go on into [s]. *)
Definition starts_outside (c : cclass) (s : string) : Prop :=
  match s with
  | String a _ => in_class c a = false
  | EmptyString => True
  end.

(** * Properties *)

(** ** Soundness of the matcher *)
Module RegexFacts.

Local Open Scope string_scope.

Lemma append_assoc (u v w : string) : (u ++ v) ++ w = u ++ (v ++ w).
Proof. induction u as [|a u IH]; simpl; [reflexivity | now rewrite IH]. Qed.

Lemma length_append (u v : string) :
  String.length (u ++ v) = (String.length u + String.length v)%nat.
Proof. induction u as [|a u IH]; simpl; [reflexivity | now rewrite IH]. Qed.

Lemma take_append (u rest : string) :
  take (String.length (u ++ rest) - String.length rest) (u ++ rest) = u.
Proof.
  rewrite length_append.
  replace (String.length u + String.length rest - String.length rest)%nat
    with (String.length u) by lia.
  induction u as [|a u IH]; simpl.
  - destruct rest; reflexivity.
  - now rewrite IH.
Qed.

Lemma strip_prefix_sound (p s rest : string) :
  strip_prefix p s = Some rest -> s = p ++ rest.
Proof.
  revert s; induction p as [|a p IH]; intros s H; simpl in *.
  - now inversion H.
  - destruct s as [|b s]; [discriminate|].
    destruct (Ascii.eqb a b) eqn:E; [|discriminate].
    apply Ascii.eqb_eq in E; subst b. now rewrite (IH _ H).
Qed.

Section Sound.

Context {R : Type}.

Lemma star_sound (c : cclass) (s : string) (k : string -> option R) (x : R) :
  star c s k = Some x ->
  exists u rest, s = u ++ rest /\ all_in c u /\ k rest = Some x.
Proof.
  induction s as [|a s IH]; simpl; intros H.
  - exists "", ""; repeat split; assumption.
  - destruct (in_class c a) eqn:E.
    + destruct (star c s k) as [y|] eqn:Es.
      * inversion H; subst y.
        destruct (IH eq_refl) as (u & rest & -> & Hu & Hk).
        exists (String a u), rest; simpl; auto.
      * exists "", (String a s); repeat split; assumption.
    + exists "", (String a s); repeat split; assumption.
Qed.

Lemma plus_sound (c : cclass) (s : string) (k : string -> option R) (x : R) :
  plus c s k = Some x ->
  exists u rest, s = u ++ rest /\ u <> "" /\ all_in c u /\ k rest = Some x.
Proof.
  destruct s as [|a s]; simpl; [discriminate|].
  destruct (in_class c a) eqn:E; [|discriminate].
  intros H. destruct (star_sound _ _ _ _ H) as (u & rest & -> & Hu & Hk).
  exists (String a u), rest; simpl; repeat split; auto. discriminate.
Qed.

Lemma exec_sound (r : regex) :
  forall (s : string) (m : captures) (k : string -> captures -> option R) (x : R),
    exec r s m k = Some x ->
    exists u rest m', s = u ++ rest /\ matches r u m m' /\ k rest m' = Some x.
Proof.
  induction r as [p|c|n r IH|r1 IH1 r2 IH2]; simpl; intros s m k x H.
  - destruct (strip_prefix p s) as [rest|] eqn:E; [|discriminate].
    exists p, rest, m. split; [now apply strip_prefix_sound|].
    split; [constructor | assumption].
  - destruct (plus_sound _ _ _ _ H) as (u & rest & -> & Hne & Hu & Hk).
    exists u, rest, m. split; [reflexivity|]. split; [now constructor | assumption].
  - destruct (IH _ _ _ _ H) as (u & rest & m' & -> & Hm & Hk).
    rewrite take_append in Hk.
    exists u, rest, ((n, u) :: m'). split; [reflexivity|].
    split; [now constructor | assumption].
  - destruct (IH1 _ _ _ _ H) as (u & rest1 & m1 & -> & Hm1 & Hk1).
    destruct (IH2 _ _ _ _ Hk1) as (v & rest & m2 & -> & Hm2 & Hk).
    exists (u ++ v), rest, m2. split; [now rewrite append_assoc|].
    split; [econstructor; eassumption | assumption].
Qed.

End Sound.

Lemma search_sound (r : regex) (s : string) (m : captures) :
  search r s = Some m ->
  exists pre u post, s = pre ++ u ++ post /\ matches r u [] m.
Proof.
  induction s as [|a s IH]; simpl; unfold match_here.
  - destruct (exec r "" [] (fun _ m0 => Some m0)) as [m0|] eqn:E; [|discriminate].
    intros H; inversion H; subst m0.
    destruct (exec_sound _ _ _ _ _ E) as (u & rest & m' & Hs & Hm & Hk).
    inversion Hk; subst m'. exists "", u, rest. now split.
  - destruct (exec r (String a s) [] (fun _ m0 => Some m0)) as [m0|] eqn:E.
    + intros H; inversion H; subst m0.
      destruct (exec_sound _ _ _ _ _ E) as (u & rest & m' & Hs & Hm & Hk).
      inversion Hk; subst m'. exists "", u, rest. now split.
    + intros H. destruct (IH H) as (pre & u & post & -> & Hm).
      exists (String a pre), u, post. now split.
Qed.

(** The matcher is complete: backtracking reaches every way of cutting
    the subject. *)

Lemma strip_prefix_append (p post : string) : strip_prefix p (p ++ post) = Some post.
Proof.
  induction p as [|a p IH]; simpl; [now destruct post|].
  now rewrite Ascii.eqb_refl.
Qed.

Section Complete.

Context {R : Type}.




End Complete.


End RegexFacts.

(** ** The line parser *)

Section Parser.

Local Open Scope string_scope.


(** A match of [LOG_PATTERN] spells out the three fields, and its groups
    are their values. *)
Lemma log_pattern_match (line : string) (m : captures) :
  search LOG_PATTERN line = Some m ->
  exists pre p ws1 r ws2 s post,
    line = pre ++ "pool=" ++ p ++ ws1 ++ "release=" ++ r ++ ws2
               ++ "upstream_status=" ++ s ++ post
    /\ token p /\ blank ws1 /\ token r /\ blank ws2 /\ token s
    /\ m = [("status", s); ("release", r); ("pool", p)].
Proof.
  intros H. apply RegexFacts.search_sound in H.
  destruct H as (pre & u & post & -> & Hm).
  unfold LOG_PATTERN in Hm.
  repeat match goal with
         | H : matches (Cat _ _) _ _ _ |- _ => inversion H; subst; clear H
         | H : matches (Group _ _) _ _ _ |- _ => inversion H; subst; clear H
         | H : matches (Lit _) _ _ _ |- _ => inversion H; subst; clear H
         | H : matches (Plus _) _ _ _ |- _ => inversion H; subst; clear H
         end.
  match goal with
  | |- context [pre ++ (_ ++ ?p ++ ?ws1 ++ _ ++ ?r ++ ?ws2 ++ _ ++ ?s) ++ post] =>
      exists pre, p, ws1, r, ws2, s, post
  end.
  repeat rewrite RegexFacts.append_assoc.
  unfold token, blank. repeat split; auto.
Qed.




End Parser.

(** ** The two checks, unfolded *)

Section Unfolded.

Variable cfg : config.
Variable clock : nat -> float.

Lemma send_slack_alert_eq (msg : message) (t : alert_type) (st : state) :
  send_slack_alert cfg msg t st = ([sink_event cfg msg t], st, Ok tt).
Proof.
  unfold send_slack_alert, sink_event.
  destruct (String.eqb (SLACK_WEBHOOK cfg) EmptyString || MAINTENANCE_MODE cfg);
    reflexivity.
Qed.

Lemma check_error_rate_eq (st : state) :
  check_error_rate cfg clock st =
  let w := request_window st in
  if (List.length w <? WINDOW_SIZE cfg)%nat then ([], st, Ok tt)
  else match w with
       | [] => ([], st, Raise ZeroDivisionError)
       | _ :: _ =>
           if (ERROR_THRESHOLD cfg <? error_rate w)%float then
             let now := clock (reads st) in
             if float_gt_int (now - last_error_alert st)%float (COOLDOWN cfg) then
               ([Triggered (error_message cfg w) now true;
                 sink_event cfg (error_message cfg w) Error_alert],
                set_last_error_alert now (tick st), Ok tt)
             else ([Triggered (error_message cfg w) now false], tick st, Ok tt)
           else ([], st, Ok tt)
       end.
Proof.
  unfold check_error_rate, bind, gets, error_message, error_rate; simpl.
  destruct (List.length (request_window st) <? WINDOW_SIZE cfg)%nat; [reflexivity|].
  destruct (request_window st) as [|x w] eqn:Ew; [reflexivity|].
  unfold true_div, time_time, bind, gets, modify, ret, emit.
  cbn -[float_of_nat count_errors float_gt_int send_slack_alert].
  destruct (ERROR_THRESHOLD cfg <? _)%float; [|reflexivity].
  destruct (float_gt_int _ _); [|reflexivity].
  rewrite send_slack_alert_eq. reflexivity.
Qed.

Lemma detect_failover_eq (current_pool : string) (st : state) :
  detect_failover cfg clock current_pool st =
  match last_pool st with
  | None => ([Printed_initial_pool current_pool], set_last_pool current_pool st, Ok tt)
  | Some old =>
      if String.eqb current_pool old then ([], st, Ok tt)
      else
        let now := clock (reads st) in
        let msg := Failover_message old current_pool in
        if float_gt_int (now - last_failover_alert st)%float (COOLDOWN cfg) then
          ([Triggered msg now true; sink_event cfg msg Failover_alert;
            Printed_failover old current_pool],
           set_last_pool current_pool (set_last_failover_alert now (tick st)), Ok tt)
        else ([Triggered msg now false], set_last_pool current_pool (tick st), Ok tt)
  end.
Proof.
  unfold detect_failover, bind, gets; simpl.
  destruct (last_pool st) as [old|]; [|reflexivity].
  destruct (String.eqb current_pool old); [reflexivity|].
  unfold time_time, bind, gets, modify, ret, emit.
  cbn -[float_gt_int send_slack_alert].
  destruct (float_gt_int _ _); [|reflexivity].
  rewrite send_slack_alert_eq. reflexivity.
Qed.

End Unfolded.

Section UnfoldedDriver.

Variable cfg : config.
Variable clock : nat -> float.

Lemma detect_failover_ok (pool : string) (st : state) :
  outcome (detect_failover cfg clock pool st) = Ok tt.
Proof.
  rewrite detect_failover_eq.
  destruct (last_pool st); [|reflexivity].
  destruct (String.eqb pool s); [reflexivity|].
  cbv zeta. destruct (float_gt_int _ _); reflexivity.
Qed.

Lemma process_log_line_eq (line : string) (st : state) :
  process_log_line cfg clock line st =
  match search LOG_PATTERN line with
  | None => ([], st, Ok tt)
  | Some m =>
      let pool := group "pool" m in
      let status := parse_status (group "status" m) in
      let f := failover_part cfg clock pool (recorded cfg status st) in
      let c := check_error_rate cfg clock (final f) in
      (Appended status :: Printed_activity (status_emoji status) pool status
         :: events f ++ Called_check_error_rate :: events c,
       final c, outcome c)
  end.
Proof.
  unfold process_log_line.
  destruct (search LOG_PATTERN line) as [m|]; [|reflexivity].
  cbv zeta. unfold failover_part, recorded.
  set (pool := group "pool" m). set (status := parse_status (group "status" m)).
  unfold bind at 1 2 3. unfold modify at 1, emit at 1 2.
  set (st1 := set_request_window _ st).
  destruct (valid_pool pool).
  - unfold bind at 1 2. unfold emit at 1.
    pose proof (detect_failover_ok pool st1) as Hok.
    destruct (detect_failover cfg clock pool st1) as [[evf stf] rf].
    unfold outcome in Hok; simpl in Hok; subst rf.
    unfold bind, emit, events, final, outcome. cbn [fst snd].
    destruct (check_error_rate cfg clock stf) as [[evc stc] rc].
    reflexivity.
  - unfold bind, ret, emit, events, final, outcome. cbn [fst snd].
    destruct (check_error_rate cfg clock st1) as [[evc stc] rc].
    reflexivity.
Qed.

End UnfoldedDriver.

(** ** What each check leaves alone *)

Section Frames.

Variable cfg : config.
Variable clock : nat -> float.

Ltac finish :=
  cbn; try congruence;
  try (unfold sink_event;
       destruct (String.eqb (SLACK_WEBHOOK cfg) EmptyString || MAINTENANCE_MODE cfg);
       cbn; congruence).

Ltac check_cases st :=
  rewrite check_error_rate_eq; cbv zeta;
  destruct (List.length (request_window st) <? WINDOW_SIZE cfg)%nat;
  [|destruct (request_window st) eqn:?;
    [|destruct (ERROR_THRESHOLD cfg <? _)%float;
      [destruct (float_gt_int _ _)|]]];
  finish.

Ltac detect_cases pool st :=
  rewrite detect_failover_eq;
  destruct (last_pool st) as [old|] eqn:?;
  [destruct (String.eqb pool old) eqn:?;
   [|cbv zeta; destruct (float_gt_int _ _)]|];
  finish.

Lemma check_error_rate_frame (st : state) :
  let o := check_error_rate cfg clock st in
  request_window (final o) = request_window st
  /\ last_pool (final o) = last_pool st
  /\ last_failover_alert (final o) = last_failover_alert st
  /\ steps (events o) = []
  /\ failover_events (events o) = []
  /\ triggers Failover_alert (events o) = [].
Proof. cbv zeta. repeat split; check_cases st. Qed.

Lemma detect_failover_frame (pool : string) (st : state) :
  let o := detect_failover cfg clock pool st in
  request_window (final o) = request_window st
  /\ last_error_alert (final o) = last_error_alert st
  /\ steps (events o) = []
  /\ triggers Error_alert (events o) = [].
Proof. cbv zeta. repeat split; detect_cases pool st. Qed.

End Frames.

(** ** Which lines make a record *)

Section Records.

Local Open Scope string_scope.



(** C4: the line of scenario D. [LOG_PATTERN] stops the status group at the
    first whitespace, so the status of the line is 502, its first attempt;
    the conversion of lines 172-176 does take the last colon-separated value
    of what it is given, with or without spaces around the colons. *)
Theorem scenario_D_status :
  let line := "pool=blue release=v1 upstream_status=502 : 502 : 200" in
  option_map (group "status") (search LOG_PATTERN line) = Some "502"
  /\ events (process_log_line default_config sample_clock line initial_state)
     = [Appended 502; Printed_activity Failed "blue" 502;
        Called_detect_failover "blue"; Printed_initial_pool "blue";
        Called_check_error_rate]
  /\ request_window (final (process_log_line default_config sample_clock line initial_state))
     = [502]
  /\ parse_status "502:502:200" = 200
  /\ parse_status "502 : 502 : 200" = 200.
Proof. cbv zeta. repeat split; vm_compute; reflexivity. Qed.

(** The line of scenario E as the specification writes it has no release
    field: it is ignored, and its status does not reach the window. *)
Lemma scenario_E_line_ignored :
  process_log_line default_config sample_clock "pool=- upstream_status=500" initial_state
  = ([], initial_state, Ok tt).
Proof. reflexivity. Qed.

(** C5: for a matched line whose pool is the sentinel ["-"], such as
    [pool=- release=v1 upstream_status=500], the status is appended to the
    window, the failover detector is not called, and what it tracks stays as
    it was. *)
Theorem sentinel_pool_only_counts (cfg : config) (clock : nat -> float)
        (line : string) (m : captures) (st : state) :
  search LOG_PATTERN line = Some m ->
  group "pool" m = "-" ->
  let status := parse_status (group "status" m) in
  let o := process_log_line cfg clock line st in
  request_window (final o) = deque_append (WINDOW_SIZE cfg) (request_window st) status
  /\ steps (events o) = [Appended status; Called_check_error_rate]
  /\ failover_events (events o) = []
  /\ last_pool (final o) = last_pool st
  /\ last_failover_alert (final o) = last_failover_alert st.
Proof.
  intros E Hp. cbv zeta. rewrite process_log_line_eq, E. cbv zeta.
  rewrite Hp. unfold failover_part.
  change (valid_pool "-") with false. cbv iota.
  pose proof (check_error_rate_frame cfg clock
                (recorded cfg (parse_status (group "status" m)) st)) as H.
  cbv zeta in H. unfold events, final in *.
  cbn [fst snd app steps failover_events] in *.
  destruct H as (Hw & Hl & Hf & Hs & He & _).
  rewrite Hw, Hl, Hf, Hs, He. repeat split.
Qed.

Lemma sentinel_pool_only_counts_witness :
  let o := process_log_line default_config sample_clock
                            "pool=- release=v1 upstream_status=500" initial_state in
  request_window (final o) = [500]
  /\ steps (events o) = [Appended 500; Called_check_error_rate]
  /\ failover_events (events o) = []
  /\ last_pool (final o) = None
  /\ last_failover_alert (final o) = 0%float.
Proof.
  exact (sentinel_pool_only_counts default_config sample_clock
           "pool=- release=v1 upstream_status=500"
           [("status", "500"); ("release", "v1"); ("pool", "-")] initial_state
           eq_refl eq_refl).
Defined.

End Records.

(** ** The sliding window *)

Section Window.

Variable capacity : nat.

Lemma deque_append_skipn (w : list Z) (x : Z) :
  (List.length w <= capacity)%nat ->
  deque_append capacity w x
  = skipn (List.length (w ++ [x]) - capacity) (w ++ [x]).
Proof.
  intros Hw. unfold deque_append.
  assert (Hl : List.length (w ++ [x]) = S (List.length w))
    by (rewrite length_app; simpl; lia).
  rewrite Hl. destruct (Nat.ltb_spec capacity (S (List.length w))) as [H|H].
  - replace (S (List.length w) - capacity)%nat with 1%nat by lia.
    destruct (w ++ [x]); reflexivity.
  - replace (S (List.length w) - capacity)%nat with 0%nat by lia. reflexivity.
Qed.

Lemma deque_append_length (w : list Z) (x : Z) :
  (List.length w <= capacity)%nat ->
  (List.length (deque_append capacity w x) <= capacity)%nat.
Proof.
  intros Hw. rewrite deque_append_skipn by assumption.
  rewrite length_skipn, length_app. simpl. lia.
Qed.

(** The window after a run of insertions: the last [capacity] items of
    everything it was given, in arrival order. *)
Lemma record_all_skipn (statuses w : list Z) :
  (List.length w <= capacity)%nat ->
  record_all capacity w statuses
  = skipn (List.length (w ++ statuses) - capacity) (w ++ statuses).
Proof.
  unfold record_all. revert w.
  induction statuses as [|x xs IH]; intros w Hw; simpl.
  - rewrite app_nil_r. replace (List.length w - capacity)%nat with 0%nat by lia.
    reflexivity.
  - rewrite IH by now apply deque_append_length.
    rewrite deque_append_skipn by assumption.
    set (l := w ++ [x]).
    assert (Hl : List.length l = S (List.length w))
      by (unfold l; rewrite length_app; simpl; lia).
    replace (w ++ x :: xs) with (l ++ xs)
      by (unfold l; rewrite <- app_assoc; reflexivity).
    assert (Hk : (List.length l - capacity <= List.length l)%nat) by lia.
    replace (skipn (List.length l - capacity) l ++ xs)
      with (skipn (List.length l - capacity) (l ++ xs)).
    + rewrite skipn_skipn, length_skipn. f_equal.
      rewrite !length_app. lia.
    + rewrite skipn_app.
      replace (List.length l - capacity - List.length l)%nat with 0%nat by lia.
      reflexivity.
Qed.

End Window.

Section WindowOfTheProgram.

Variable cfg : config.
Variable clock : nat -> float.

Lemma process_log_line_window (line : string) (st : state) :
  request_window (final (process_log_line cfg clock line st))
  = match search LOG_PATTERN line with
    | Some m => deque_append (WINDOW_SIZE cfg) (request_window st)
                             (parse_status (group "status" m))
    | None => request_window st
    end.
Proof.
  rewrite process_log_line_eq.
  destruct (search LOG_PATTERN line) as [m|]; [|reflexivity].
  cbv zeta. unfold final at 1. cbn [fst snd].
  destruct (check_error_rate_frame cfg clock
              (final (failover_part cfg clock (group "pool" m)
                        (recorded cfg (parse_status (group "status" m)) st))))
    as (Hw & _).
  rewrite Hw. unfold failover_part.
  destruct (valid_pool (group "pool" m)); unfold final at 1; cbn [fst snd].
  - destruct (detect_failover_frame cfg clock (group "pool" m)
                (recorded cfg (parse_status (group "status" m)) st)) as (Hd & _).
    rewrite Hd. reflexivity.
  - reflexivity.
Qed.

(** What holds of the globals before a run of [tail_log] and is kept by
    every line holds after it, however the run ends. *)
Lemma tail_log_invariant (P : state -> Prop) :
  (forall line st, P st -> P (final (process_log_line cfg clock line st))) ->
  forall lines st, P st -> P (final (tail_log cfg clock lines st)).
Proof.
  intros Hstep lines. induction lines as [|line rest IH]; intros st Hst.
  - exact Hst.
  - simpl. unfold bind at 1.
    assert (H1 : P (final ((if String.eqb line EmptyString then ret tt
                            else process_log_line cfg clock (Text.strip line)) st))).
    { destruct (String.eqb line EmptyString); [exact Hst | now apply Hstep]. }
    destruct ((if String.eqb line EmptyString then ret tt
               else process_log_line cfg clock (Text.strip line)) st)
      as [[ev1 st1] [[]|e]]; unfold final in H1; cbn [fst snd] in H1.
    + specialize (IH st1 H1).
      destruct (tail_log cfg clock rest st1) as [[ev2 st2] r2]. exact IH.
    + exact H1.
Qed.

Lemma tail_log_window_bounded (lines : list string) (st : state) :
  (List.length (request_window st) <= WINDOW_SIZE cfg)%nat ->
  (List.length (request_window (final (tail_log cfg clock lines st)))
   <= WINDOW_SIZE cfg)%nat.
Proof.
  apply (tail_log_invariant
           (fun st => (List.length (request_window st) <= WINDOW_SIZE cfg)%nat)).
  intros line st0 H. rewrite process_log_line_window.
  destruct (search LOG_PATTERN line); [now apply deque_append_length | exact H].
Qed.

End WindowOfTheProgram.

(** ** The error rate *)

Section ErrorRate.

Lemma count_errors_le (w : list Z) : (count_errors w <= List.length w)%nat.
Proof. unfold count_errors. apply filter_length_le. Qed.

(** With the default window and threshold the rounded rate decides as the
    exact one: more than 2 percent of 200 is more than 4. *)
Lemma default_rate_exact (w : list Z) :
  List.length w = 200%nat ->
  (2 <? error_rate w)%float = (4 <? count_errors w)%nat.
Proof.
  intros Hlen. pose proof (count_errors_le w) as Hle.
  unfold error_rate. rewrite Hlen in *.
  assert (Hall : forallb (fun n => Bool.eqb
                            (2 <? float_of_nat n / float_of_nat 200 * 100)%float
                            (4 <? n)%nat) (seq 0 201) = true)
    by (vm_compute; reflexivity).
  rewrite forallb_forall in Hall.
  apply Bool.eqb_prop. apply Hall. apply in_seq. lia.
Qed.

(** C1: a window shorter than [WINDOW_SIZE] is never a breach, whatever it
    holds. For a window that has reached [WINDOW_SIZE], the rate is the
    float (errors / length) * 100, the quotient rounded before the product
    is, and a breach is signalled exactly when this float is greater than
    [ERROR_THRESHOLD]; with the default window of 200 and threshold of 2
    this is exactly when more than 4 statuses are 500 or more. *)
Theorem error_rate_breach (cfg : config) (clock : nat -> float) (st : state) :
  let w := request_window st in
  let o := check_error_rate cfg clock st in
  ((List.length w < WINDOW_SIZE cfg)%nat -> o = ([], st, Ok tt))
  /\ ((WINDOW_SIZE cfg <= List.length w)%nat -> (0 < List.length w)%nat ->
      outcome o = Ok tt
      /\ breaches (events o)
         = if (ERROR_THRESHOLD cfg <? error_rate w)%float then [error_rate w] else [])
  /\ (ERROR_THRESHOLD cfg = 2%float -> WINDOW_SIZE cfg = 200%nat ->
      List.length w = 200%nat ->
      breaches (events o) = if (4 <? count_errors w)%nat then [error_rate w] else []).
Proof.
  cbv zeta.
  assert (Hfull : (WINDOW_SIZE cfg <= List.length (request_window st))%nat ->
                  (0 < List.length (request_window st))%nat ->
                  outcome (check_error_rate cfg clock st) = Ok tt
                  /\ breaches (events (check_error_rate cfg clock st))
                     = if (ERROR_THRESHOLD cfg <? error_rate (request_window st))%float
                       then [error_rate (request_window st)] else []).
  { intros Hcap Hpos. rewrite check_error_rate_eq. cbv zeta.
    destruct (Nat.ltb_spec (List.length (request_window st)) (WINDOW_SIZE cfg));
      [lia|].
    destruct (request_window st) as [|x w] eqn:Ew; [simpl in Hpos; lia|].
    destruct (ERROR_THRESHOLD cfg <? error_rate (x :: w))%float; [|split; reflexivity].
    destruct (float_gt_int _ _); split; try reflexivity.
    unfold events, sink_event; cbn [fst snd].
    destruct (_ || _); reflexivity. }
  split; [|split].
  - intros Hshort. rewrite check_error_rate_eq. cbv zeta.
    destruct (Nat.ltb_spec (List.length (request_window st)) (WINDOW_SIZE cfg));
      [reflexivity | lia].
  - exact Hfull.
  - intros Ht Hc Hlen. rewrite <- (default_rate_exact _ Hlen), <- Ht.
    apply Hfull; lia.
Qed.

Lemma error_rate_breach_witness :
  check_error_rate default_config sample_clock
                   (State None 0%float 0%float (sample_window 5 199) 0)
  = ([], State None 0%float 0%float (sample_window 5 199) 0, Ok tt)
  /\ breaches (events (check_error_rate default_config sample_clock
                         (State None 0%float 0%float (sample_window 5 200) 0)))
     = [2.5%float]
  /\ breaches (events (check_error_rate default_config sample_clock
                         (State None 0%float 0%float (sample_window 4 200) 0)))
     = [].
Proof.
  split; [|split].
  - apply (proj1 (error_rate_breach default_config sample_clock
                    (State None 0%float 0%float (sample_window 5 199) 0))).
    vm_compute. lia.
  - apply (proj2 (proj1 (proj2 (error_rate_breach default_config sample_clock
                    (State None 0%float 0%float (sample_window 5 200) 0)))
                   ltac:(vm_compute; lia) ltac:(vm_compute; lia))).
  - apply (proj2 (proj2 (error_rate_breach default_config sample_clock
                    (State None 0%float 0%float (sample_window 4 200) 0)))
                 eq_refl eq_refl eq_refl).
Defined.

(** With a window of 100 and a threshold of 7 percent, 7 statuses of 500
    make exactly 7 percent, which is not greater than the threshold; the
    rate the program computes is the next float above 7, and it signals a
    breach. *)
Lemma rate_seven_percent_breaches :
  let cfg := Config EmptyString 7%float 100 300 false in
  let st := State None 0%float 0%float (sample_window 7 100) 0 in
  List.length (request_window st) = WINDOW_SIZE cfg
  /\ count_errors (request_window st) = 7%nat
  /\ spec_rate 7 100 = 7%float
  /\ (ERROR_THRESHOLD cfg <? spec_rate 7 100)%float = false
  /\ (spec_rate 7 100 <? error_rate (request_window st))%float = true
  /\ breaches (events (check_error_rate cfg sample_clock st))
     = [error_rate (request_window st)].
Proof. cbv zeta. repeat split; vm_compute; reflexivity. Qed.

End ErrorRate.

(** ** Sequencing *)

Section Projections.

Context {A : Type}.

Lemma events_triple (evs : list event) (st : state) (r : result A) :
  events (evs, st, r) = evs.
Proof. reflexivity. Qed.

Lemma final_triple (evs : list event) (st : state) (r : result A) :
  final (evs, st, r) = st.
Proof. reflexivity. Qed.

Lemma outcome_triple (evs : list event) (st : state) (r : result A) :
  outcome (evs, st, r) = r.
Proof. reflexivity. Qed.

End Projections.

Ltac triples :=
  repeat (rewrite events_triple || rewrite final_triple || rewrite outcome_triple).

Section Sequencing.

Context {A B : Type}.

Lemma bind_ok (m : M A) (f : A -> M B) (st : state) (a : A) :
  outcome (m st) = Ok a ->
  bind m f st
  = (events (m st) ++ events (f a (final (m st))),
     final (f a (final (m st))), outcome (f a (final (m st)))).
Proof.
  unfold bind, outcome, events, final.
  destruct (m st) as [[ev1 st1] r1]. cbn [fst snd]. intros ->.
  destruct (f a st1) as [[ev2 st2] r2]. reflexivity.
Qed.

Lemma bind_raise (m : M A) (f : A -> M B) (st : state) (e : exn) :
  outcome (m st) = Raise e ->
  bind m f st = (events (m st), final (m st), Raise e).
Proof.
  unfold bind, outcome, events, final.
  destruct (m st) as [[ev1 st1] r1]. cbn [fst snd]. intros ->. reflexivity.
Qed.

End Sequencing.

Lemma failover_events_app (a b : list event) :
  failover_events (a ++ b) = failover_events a ++ failover_events b.
Proof.
  induction a as [|e a IH]; [reflexivity|].
  destruct e as [| | | | | | | |msg now passed]; simpl; try exact IH.
  destruct msg; simpl; [now rewrite IH | exact IH].
Qed.

Lemma steps_app (a b : list event) : steps (a ++ b) = steps a ++ steps b.
Proof.
  induction a as [|e a IH]; [reflexivity|].
  destruct e; simpl; try exact IH; now rewrite IH.
Qed.

Lemma triggers_app (t : alert_type) (a b : list event) :
  triggers t (a ++ b) = triggers t a ++ triggers t b.
Proof.
  induction a as [|e a IH]; [reflexivity|].
  destruct e as [| | | | | | | |msg now passed]; simpl; try exact IH.
  destruct (alert_type_eqb (category msg) t); simpl; [now rewrite IH | exact IH].
Qed.

Lemma posted_app (a b : list event) : posted (a ++ b) = posted a ++ posted b.
Proof.
  induction a as [|e a IH]; [reflexivity|].
  destruct e; simpl; try exact IH; now rewrite IH.
Qed.

Lemma last_cons_default {T : Type} (l : list T) :
  forall x d d', List.last (x :: l) d = List.last (x :: l) d'.
Proof.
  induction l as [|y l IH]; intros x d d'; [reflexivity|].
  change (List.last (y :: l) d = List.last (y :: l) d'). apply IH.
Qed.

(** ** The failover detector *)

Section Detector.

Variable cfg : config.
Variable clock : nat -> float.

Lemma detect_failover_events (pool : string) (st : state) :
  failover_events (events (detect_failover cfg clock pool st))
  = match last_pool st with
    | None => []
    | Some old => if String.eqb pool old then [] else [(old, pool)]
    end.
Proof.
  rewrite detect_failover_eq.
  destruct (last_pool st) as [old|]; [|reflexivity].
  destruct (String.eqb pool old); [reflexivity|].
  cbv zeta. destruct (float_gt_int _ _); [|reflexivity].
  unfold events, sink_event; cbn [fst snd].
  destruct (_ || _); reflexivity.
Qed.

Lemma detect_failover_tracks (pool : string) (st : state) :
  last_pool (final (detect_failover cfg clock pool st)) = Some pool.
Proof.
  rewrite detect_failover_eq.
  destruct (last_pool st) as [old|] eqn:E; [|reflexivity].
  destruct (String.eqb pool old) eqn:Eq.
  - apply String.eqb_eq in Eq. subst old. exact E.
  - cbv zeta. destruct (float_gt_int _ _); reflexivity.
Qed.

Lemma observe_cons (pool : string) (rest : list string) (st : state) :
  observe cfg clock (pool :: rest) st
  = (events (detect_failover cfg clock pool st)
       ++ events (observe cfg clock rest (final (detect_failover cfg clock pool st))),
     final (observe cfg clock rest (final (detect_failover cfg clock pool st))),
     outcome (observe cfg clock rest (final (detect_failover cfg clock pool st)))).
Proof.
  exact (bind_ok (detect_failover cfg clock pool) (fun _ => observe cfg clock rest)
                 st tt (detect_failover_ok cfg clock pool st)).
Qed.

Lemma observe_events (pools : list string) :
  forall st,
    failover_events (events (observe cfg clock pools st))
    = transitions (last_pool st) pools.
Proof.
  induction pools as [|pool rest IH]; intros st; [reflexivity|].
  rewrite observe_cons. unfold events at 1. cbn [fst snd].
  rewrite failover_events_app, IH, detect_failover_events, detect_failover_tracks.
  simpl. destruct (last_pool st) as [old|]; [|reflexivity].
  destruct (String.eqb pool old) eqn:Eq; [|reflexivity].
  apply String.eqb_eq in Eq. now subst old.
Qed.

Lemma observe_ok (pools : list string) :
  forall st, outcome (observe cfg clock pools st) = Ok tt.
Proof.
  induction pools as [|pool rest IH]; intros st; [reflexivity|].
  rewrite observe_cons. unfold outcome at 1. cbn [snd]. apply IH.
Qed.

Lemma observe_tracks (pools : list string) :
  forall st,
    last_pool (final (observe cfg clock pools st))
    = List.last (map Some pools) (last_pool st).
Proof.
  induction pools as [|pool rest IH]; intros st; [reflexivity|].
  rewrite observe_cons. unfold final at 1. cbn [fst snd].
  rewrite IH, detect_failover_tracks.
  destruct rest as [|next rest]; [reflexivity|].
  cbn [map].
  rewrite (last_cons_default (map Some rest) (Some next) (Some pool) (last_pool st)).
  reflexivity.
Qed.

End Detector.

(** C2: fed any sequence of pools, the failover detector raises nothing
    and produces exactly the failover events of the changes of pool: none
    for the first observation, none for an observation equal to the tracked
    pool, and exactly one, carrying (old, new), for an observation that
    differs from it. *)
Theorem failover_detector_events (cfg : config) (clock : nat -> float) :
  (forall pool st,
      failover_events (events (detect_failover cfg clock pool st))
      = match last_pool st with
        | None => []
        | Some old => if String.eqb pool old then [] else [(old, pool)]
        end)
  /\ (forall pools st,
         failover_events (events (observe cfg clock pools st))
         = transitions (last_pool st) pools
         /\ outcome (observe cfg clock pools st) = Ok tt).
Proof.
  split.
  - apply detect_failover_events.
  - intros pools st. split; [apply observe_events | apply observe_ok].
Qed.

Section TrackedPool.

Variable cfg : config.
Variable clock : nat -> float.

Lemma process_log_line_last_pool (line : string) (st : state) :
  last_pool (final (process_log_line cfg clock line st))
  = match search LOG_PATTERN line with
    | Some m => if valid_pool (group "pool" m) then Some (group "pool" m)
                else last_pool st
    | None => last_pool st
    end.
Proof.
  rewrite process_log_line_eq.
  destruct (search LOG_PATTERN line) as [m|]; [|reflexivity].
  cbv zeta. unfold final at 1. cbn [fst snd].
  destruct (check_error_rate_frame cfg clock
              (final (failover_part cfg clock (group "pool" m)
                        (recorded cfg (parse_status (group "status" m)) st))))
    as (_ & Hl & _).
  rewrite Hl. unfold failover_part.
  destruct (valid_pool (group "pool" m)); unfold final at 1; cbn [fst snd].
  - apply detect_failover_tracks.
  - reflexivity.
Qed.

End TrackedPool.

(** C7: the detector leaves the pool it was given as the tracked pool,
    whatever the cooldown test decides; when the test suppresses the alert
    of a change of pool, the change is recorded all the same and the time of
    the last alert is not. After a sequence of observations the tracked pool
    is the last one observed, and in a run of [tail_log] a tracked pool is
    never unset. *)
Theorem tracked_pool_follows (cfg : config) (clock : nat -> float) :
  (forall pool st, last_pool (final (detect_failover cfg clock pool st)) = Some pool)
  /\ (forall pool old st,
        last_pool st = Some old -> String.eqb pool old = false ->
        float_gt_int (clock (reads st) - last_failover_alert st)%float (COOLDOWN cfg) = false ->
        detect_failover cfg clock pool st
        = ([Triggered (Failover_message old pool) (clock (reads st)) false],
           set_last_pool pool (tick st), Ok tt))
  /\ (forall pools st,
        last_pool (final (observe cfg clock pools st))
        = List.last (map Some pools) (last_pool st))
  /\ (forall line m st,
        search LOG_PATTERN line = Some m -> valid_pool (group "pool" m) = true ->
        last_pool (final (process_log_line cfg clock line st)) = Some (group "pool" m))
  /\ (forall lines st,
        last_pool st <> None ->
        last_pool (final (tail_log cfg clock lines st)) <> None).
Proof.
  split; [apply detect_failover_tracks|].
  split.
  { intros pool old st Hl Hne Hcool. rewrite detect_failover_eq, Hl, Hne.
    cbv zeta. now rewrite Hcool. }
  split; [apply observe_tracks|].
  split.
  { intros line m st E Hv. now rewrite process_log_line_last_pool, E, Hv. }
  apply (tail_log_invariant cfg clock (fun st => last_pool st <> None)).
  intros line st H. rewrite process_log_line_last_pool.
  destruct (search LOG_PATTERN line) as [m|]; [|exact H].
  destruct (valid_pool (group "pool" m)); [discriminate | exact H].
Qed.

Lemma tracked_pool_follows_witness :
  let st := State (Some "blue"%string) 1700000000%float 0%float [] 1 in
  detect_failover default_config sample_clock "green" st
  = ([Triggered (Failover_message "blue" "green") 1700000100%float false],
     State (Some "green"%string) 1700000000%float 0%float [] 2, Ok tt)
  /\ last_pool (final (process_log_line default_config sample_clock
                         "pool=green release=v1 upstream_status=200" st))
     = Some "green"%string
  /\ last_pool (final (tail_log default_config sample_clock
                         ["pool=- release=v1 upstream_status=200"%string] st)) <> None.
Proof.
  cbv zeta. split; [|split].
  - exact (proj1 (proj2 (tracked_pool_follows default_config sample_clock))
             "green"%string "blue"%string
             (State (Some "blue"%string) 1700000000%float 0%float [] 1)
             eq_refl eq_refl eq_refl).
  - exact (proj1 (proj2 (proj2 (proj2 (tracked_pool_follows default_config sample_clock))))
             "pool=green release=v1 upstream_status=200"%string
             [("status", "200"); ("release", "v1"); ("pool", "green")]%string
             (State (Some "blue"%string) 1700000000%float 0%float [] 1)
             eq_refl eq_refl).
  - apply (proj2 (proj2 (proj2 (proj2 (tracked_pool_follows default_config sample_clock))))).
    discriminate.
Defined.

(** ** The order of the steps *)

Section Steps.

Variable cfg : config.
Variable clock : nat -> float.

Lemma process_log_line_steps (line : string) (st : state) :
  steps (events (process_log_line cfg clock line st))
  = match search LOG_PATTERN line with
    | Some m =>
        let pool := group "pool" m in
        Appended (parse_status (group "status" m))
          :: (if valid_pool pool then [Called_detect_failover pool] else [])
          ++ [Called_check_error_rate]
    | None => []
    end.
Proof.
  rewrite process_log_line_eq.
  destruct (search LOG_PATTERN line) as [m|]; [|reflexivity].
  cbv zeta. unfold events at 1. cbn [fst snd steps].
  rewrite steps_app. cbn [steps].
  destruct (check_error_rate_frame cfg clock
              (final (failover_part cfg clock (group "pool" m)
                        (recorded cfg (parse_status (group "status" m)) st))))
    as (_ & _ & _ & Hs & _).
  rewrite Hs. unfold failover_part.
  destruct (valid_pool (group "pool" m)); unfold events at 1; cbn [fst snd steps].
  - destruct (detect_failover_frame cfg clock (group "pool" m)
                (recorded cfg (parse_status (group "status" m)) st))
      as (_ & _ & Hd & _).
    rewrite Hd. reflexivity.
  - reflexivity.
Qed.

Lemma check_error_rate_ok (st : state) :
  (0 < WINDOW_SIZE cfg)%nat -> outcome (check_error_rate cfg clock st) = Ok tt.
Proof.
  intros Hc. rewrite check_error_rate_eq. cbv zeta.
  destruct (Nat.ltb_spec (List.length (request_window st)) (WINDOW_SIZE cfg));
    [reflexivity|].
  destruct (request_window st); [simpl in *; lia|].
  destruct (ERROR_THRESHOLD cfg <? _)%float; [|reflexivity].
  destruct (float_gt_int _ _); reflexivity.
Qed.

Lemma process_log_line_ok (line : string) (st : state) :
  (0 < WINDOW_SIZE cfg)%nat -> outcome (process_log_line cfg clock line st) = Ok tt.
Proof.
  intros Hc. rewrite process_log_line_eq.
  destruct (search LOG_PATTERN line) as [m|]; [|reflexivity].
  cbv zeta. unfold outcome at 1. cbn [snd]. now apply check_error_rate_ok.
Qed.

(** One turn of the loop of [tail_log]. *)
Lemma tail_log_cons (line : string) (rest : list string) (st : state) :
  (0 < WINDOW_SIZE cfg)%nat ->
  let o := (if String.eqb line EmptyString then ret tt
            else process_log_line cfg clock (Text.strip line)) st in
  tail_log cfg clock (line :: rest) st
  = (events o ++ events (tail_log cfg clock rest (final o)),
     final (tail_log cfg clock rest (final o)),
     outcome (tail_log cfg clock rest (final o))).
Proof.
  intros Hc. cbv zeta.
  exact (bind_ok (if String.eqb line EmptyString then ret tt
                  else process_log_line cfg clock (Text.strip line))
                 (fun _ => tail_log cfg clock rest) st tt
                 ltac:(destruct (String.eqb line EmptyString);
                       [reflexivity | now apply process_log_line_ok])).
Qed.

Lemma tail_log_steps (lines : list string) :
  (0 < WINDOW_SIZE cfg)%nat ->
  forall st,
    steps (events (tail_log cfg clock lines st)) = flat_map line_steps lines
    /\ outcome (tail_log cfg clock lines st) = Ok tt.
Proof.
  intros Hc. induction lines as [|line rest IH]; intros st; [split; reflexivity|].
  rewrite tail_log_cons by assumption.
  unfold events at 1, outcome at 1. cbn [fst snd flat_map].
  rewrite steps_app.
  destruct (IH (final ((if String.eqb line EmptyString then ret tt
                        else process_log_line cfg clock (Text.strip line)) st)))
    as (-> & ->).
  split; [|reflexivity]. f_equal. unfold line_steps.
  destruct (String.eqb line EmptyString); [reflexivity|].
  apply process_log_line_steps.
Qed.

End Steps.

Section Order.

Local Open Scope string_scope.

(** On a matched line with a valid pool the append to the window comes
    first: the failover check does not precede it. *)
Lemma append_precedes_failover_check :
  let line := "pool=blue release=v1 upstream_status=200" in
  steps (events (process_log_line default_config sample_clock line initial_state))
  = [Appended 200; Called_detect_failover "blue"; Called_check_error_rate]
  /\ steps (events (process_log_line default_config sample_clock line initial_state))
     <> [Called_detect_failover "blue"; Appended 200; Called_check_error_rate].
Proof. cbv zeta. split; [reflexivity | vm_compute; discriminate]. Qed.

(** C6: for every line the steps are, in this order: the match of
    [LOG_PATTERN], the append of the status to the window, the failover
    check if the pool is valid, the error-rate check. With a window size of
    at least one, a run of [tail_log] performs the steps of each of its
    lines once, in arrival order, and ends without an exception. *)
Theorem steps_in_order (cfg : config) (clock : nat -> float) :
  (forall line st,
      steps (events (process_log_line cfg clock line st))
      = match search LOG_PATTERN line with
        | Some m =>
            let pool := group "pool" m in
            Appended (parse_status (group "status" m))
              :: (if valid_pool pool then [Called_detect_failover pool] else [])
              ++ [Called_check_error_rate]
        | None => []
        end)
  /\ ((0 < WINDOW_SIZE cfg)%nat ->
      forall lines st,
        steps (events (tail_log cfg clock lines st)) = flat_map line_steps lines
        /\ outcome (tail_log cfg clock lines st) = Ok tt).
Proof.
  split.
  - apply process_log_line_steps.
  - intros Hc lines. now apply tail_log_steps.
Qed.

Lemma steps_in_order_witness :
  let lines := ["pool=blue release=v1 upstream_status=200"; "noise";
                "pool=- release=v1 upstream_status=503"] in
  steps (events (tail_log default_config sample_clock lines initial_state))
  = [Appended 200; Called_detect_failover "blue"; Called_check_error_rate;
     Appended 503; Called_check_error_rate]
  /\ outcome (tail_log default_config sample_clock lines initial_state) = Ok tt.
Proof.
  cbv zeta.
  apply (proj2 (steps_in_order default_config sample_clock) ltac:(vm_compute; lia)
           ["pool=blue release=v1 upstream_status=200"; "noise";
            "pool=- release=v1 upstream_status=503"] initial_state).
Defined.

End Order.

(** ** Induction over a run *)

Section RunInduction.

Variable cfg : config.
Variable clock : nat -> float.

(** A property of the pieces of a run that holds of the whole run. *)
Section Induction.

Variable P : state -> list event -> state -> Prop.

Hypothesis P_nil : forall st, P st [] st.
Hypothesis P_app :
  forall st e1 st1 e2 st2, P st e1 st1 -> P st1 e2 st2 -> P st (e1 ++ e2) st2.
Hypothesis P_detect :
  forall pool st,
    P st (events (detect_failover cfg clock pool st))
      (final (detect_failover cfg clock pool st)).
Hypothesis P_check :
  forall st,
    P st (events (check_error_rate cfg clock st)) (final (check_error_rate cfg clock st)).
Hypothesis P_record : forall status st, P st [Appended status] (recorded cfg status st).
Hypothesis P_activity : forall i pool status st, P st [Printed_activity i pool status] st.
Hypothesis P_call_detect : forall pool st, P st [Called_detect_failover pool] st.
Hypothesis P_call_check : forall st, P st [Called_check_error_rate] st.

Lemma process_log_line_trace (line : string) (st : state) :
  P st (events (process_log_line cfg clock line st))
    (final (process_log_line cfg clock line st)).
Proof.
  rewrite process_log_line_eq.
  destruct (search LOG_PATTERN line) as [m|]; [|apply P_nil].
  cbv zeta. rewrite events_triple, final_triple.
  set (status := parse_status (group "status" m)).
  set (f := failover_part cfg clock (group "pool" m) (recorded cfg status st)).
  apply (P_app st [Appended status] (recorded cfg status st)); [apply P_record|].
  apply (P_app _ [Printed_activity (status_emoji status) (group "pool" m) status]
               (recorded cfg status st)); [apply P_activity|].
  apply (P_app _ (events f) (final f)).
  - unfold f, failover_part. destruct (valid_pool (group "pool" m)).
    + rewrite events_triple, final_triple.
      apply (P_app _ [Called_detect_failover (group "pool" m)] (recorded cfg status st));
        [apply P_call_detect | apply P_detect].
    + apply P_nil.
  - apply (P_app _ [Called_check_error_rate] (final f));
      [apply P_call_check | apply P_check].
Qed.

Lemma tail_log_trace (lines : list string) :
  forall st,
    P st (events (tail_log cfg clock lines st)) (final (tail_log cfg clock lines st)).
Proof.
  induction lines as [|line rest IH]; intros st; [apply P_nil|].
  set (m := if String.eqb line EmptyString then ret tt
            else process_log_line cfg clock (Text.strip line)).
  assert (Hm : P st (events (m st)) (final (m st))).
  { unfold m. destruct (String.eqb line EmptyString);
      [apply P_nil | apply process_log_line_trace]. }
  change (tail_log cfg clock (line :: rest) st)
    with (bind m (fun _ => tail_log cfg clock rest) st).
  destruct (outcome (m st)) as [[]|e] eqn:Ho.
  - rewrite (bind_ok m (fun _ => tail_log cfg clock rest) st tt Ho).
    rewrite events_triple, final_triple.
    apply (P_app _ _ (final (m st))); [exact Hm | apply IH].
  - rewrite (bind_raise m (fun _ => tail_log cfg clock rest) st e Ho).
    rewrite events_triple, final_triple. exact Hm.
Qed.

End Induction.

End RunInduction.

(** ** The cooldown of the alerts *)

Section Cooldown.

Variable cooldown : Z.

Lemma last_dispatch_app (a b : list (message * float * bool)) :
  forall last, last_dispatch last (a ++ b) = last_dispatch (last_dispatch last a) b.
Proof.
  induction a as [|[[msg now] passed] a IH]; intros last; [reflexivity|].
  simpl. apply IH.
Qed.

Lemma governed_app (a b : list (message * float * bool)) :
  forall last,
    governed cooldown last (a ++ b)
    <-> governed cooldown last a /\ governed cooldown (last_dispatch last a) b.
Proof.
  induction a as [|[[msg now] passed] a IH]; intros last; simpl.
  - tauto.
  - rewrite IH. tauto.
Qed.

Lemma governed_spaced (tr : list (message * float * bool)) :
  forall last, governed cooldown last tr -> spaced cooldown last (dispatched tr).
Proof.
  induction tr as [|[[msg now] passed] tr IH]; intros last; simpl; [trivial|].
  intros [Hp Hrest]. destruct passed.
  - simpl. split; [now symmetry | now apply IH].
  - now apply IH.
Qed.

End Cooldown.

Section Governed.

Variable cfg : config.
Variable clock : nat -> float.

Lemma governs_nothing (t : alert_type) (st st' : state) (evs : list event)
      (r : result unit) :
  triggers t evs = [] -> last_alert t st' = last_alert t st ->
  governs cfg t st (evs, st', r).
Proof.
  unfold governs. triples. intros -> ->. simpl. auto.
Qed.

Lemma governs_seq (t : alert_type) (st : state) (o1 o2 : list event * state * result unit)
      (r : result unit) :
  governs cfg t st o1 -> governs cfg t (final o1) o2 ->
  governs cfg t st (events o1 ++ events o2, final o2, r).
Proof.
  unfold governs. intros [G1 L1] [G2 L2]. triples.
  rewrite triggers_app, governed_app, last_dispatch_app, <- L1. auto.
Qed.

Lemma check_error_rate_governs (t : alert_type) (st : state) :
  governs cfg t st (check_error_rate cfg clock st).
Proof.
  destruct t.
  - destruct (check_error_rate_frame cfg clock st) as (_ & _ & Hf & _ & _ & Ht).
    unfold governs. rewrite Ht. simpl. auto.
  - rewrite check_error_rate_eq. cbv zeta.
    destruct (List.length (request_window st) <? WINDOW_SIZE cfg)%nat;
      [now apply governs_nothing|].
    destruct (request_window st) as [|x w]; [now apply governs_nothing|].
    destruct (ERROR_THRESHOLD cfg <? _)%float; [|now apply governs_nothing].
    destruct (float_gt_int _ _) eqn:Hp.
    + unfold governs, sink_event. triples.
      destruct (_ || _); simpl; rewrite Hp; auto.
    + unfold governs. triples. simpl. rewrite Hp. auto.
Qed.

Lemma detect_failover_governs (t : alert_type) (pool : string) (st : state) :
  governs cfg t st (detect_failover cfg clock pool st).
Proof.
  destruct t.
  - rewrite detect_failover_eq.
    destruct (last_pool st) as [old|]; [|now apply governs_nothing].
    destruct (String.eqb pool old); [now apply governs_nothing|].
    cbv zeta. destruct (float_gt_int _ _) eqn:Hp.
    + unfold governs, sink_event. triples.
      destruct (_ || _); simpl; rewrite Hp; auto.
    + unfold governs. triples. simpl. rewrite Hp. auto.
  - destruct (detect_failover_frame cfg clock pool st) as (_ & Hl & _ & Ht).
    unfold governs. rewrite Ht. simpl. auto.
Qed.

Lemma failover_part_governs (t : alert_type) (pool : string) (st : state) :
  governs cfg t st (failover_part cfg clock pool st).
Proof.
  unfold failover_part. destruct (valid_pool pool); [|now apply governs_nothing].
  pose proof (detect_failover_governs t pool st) as H.
  unfold governs in *. triples. cbn [triggers]. exact H.
Qed.

Lemma process_log_line_governs (t : alert_type) (line : string) (st : state) :
  governs cfg t st (process_log_line cfg clock line st).
Proof.
  rewrite process_log_line_eq.
  destruct (search LOG_PATTERN line) as [m|]; [|now apply governs_nothing].
  cbv zeta.
  set (st1 := recorded cfg (parse_status (group "status" m)) st).
  set (f := failover_part cfg clock (group "pool" m) st1).
  set (c := check_error_rate cfg clock (final f)).
  assert (Hf : governs cfg t st f).
  { pose proof (failover_part_governs t (group "pool" m) st1) as H.
    unfold governs in *. destruct t; exact H. }
  assert (Hc : governs cfg t (final f) (Called_check_error_rate :: events c, final c, outcome c)).
  { pose proof (check_error_rate_governs t (final f)) as H.
    unfold governs in *. triples. cbn [triggers]. exact H. }
  pose proof (governs_seq t st f _ (outcome c) Hf Hc) as H.
  unfold governs in *. rewrite !events_triple, !final_triple in H.
  triples. cbn [triggers]. exact H.
Qed.

Lemma tail_log_governs (t : alert_type) (lines : list string) :
  forall st, governs cfg t st (tail_log cfg clock lines st).
Proof.
  induction lines as [|line rest IH]; intros st; [now apply governs_nothing|].
  set (m := if String.eqb line EmptyString then ret tt
            else process_log_line cfg clock (Text.strip line)).
  assert (Hm : governs cfg t st (m st)).
  { unfold m. destruct (String.eqb line EmptyString);
      [now apply governs_nothing | apply process_log_line_governs]. }
  change (tail_log cfg clock (line :: rest) st)
    with (bind m (fun _ => tail_log cfg clock rest) st).
  destruct (outcome (m st)) as [[]|e] eqn:Ho.
  - rewrite (bind_ok m (fun _ => tail_log cfg clock rest) st tt Ho).
    apply governs_seq; [exact Hm | apply IH].
  - rewrite (bind_raise m (fun _ => tail_log cfg clock rest) st e Ho).
    unfold governs in *. exact Hm.
Qed.

End Governed.

Section Sends.

Variable cfg : config.
Variable clock : nat -> float.

Lemma sends_app (t : alert_type) (a b : list event) :
  sends t (a ++ b) = sends t a ++ sends t b.
Proof.
  induction a as [|e a IH]; [reflexivity|].
  destruct e as [| | |t'|url t' msg| | | |]; simpl; try exact IH;
    destruct (alert_type_eqb t' t); simpl; now rewrite ?IH.
Qed.

Lemma due_app (t : alert_type) (a b : list (message * float * bool)) :
  due cfg t (a ++ b) = due cfg t a ++ due cfg t b.
Proof. unfold due. now rewrite filter_app, map_app. Qed.

Lemma due_length (t : alert_type) (tr : list (message * float * bool)) :
  List.length (due cfg t tr) = List.length (dispatched tr).
Proof.
  unfold due. rewrite length_map.
  induction tr as [|[[msg now] passed] tr IH]; [reflexivity|].
  simpl. destruct passed; simpl; now rewrite IH.
Qed.

(** Over a run, [send_slack_alert] is called for a category once for each of
    its cooldown tests that passed, and not otherwise. *)
Lemma tail_log_sends (t : alert_type) (lines : list string) (st : state) :
  sends t (events (tail_log cfg clock lines st))
  = due cfg t (triggers t (events (tail_log cfg clock lines st))).
Proof.
  apply (tail_log_trace cfg clock
           (fun _ evs _ => sends t evs = due cfg t (triggers t evs)));
    try reflexivity.
  - intros st0 e1 st1 e2 st2 H1 H2.
    now rewrite sends_app, triggers_app, due_app, H1, H2.
  - intros pool st0. rewrite detect_failover_eq.
    destruct (last_pool st0) as [old|]; [|reflexivity].
    destruct (String.eqb pool old); [reflexivity|].
    cbv zeta. destruct (float_gt_int _ _); rewrite events_triple;
      unfold due, sink_event;
      destruct (String.eqb (SLACK_WEBHOOK cfg) EmptyString || MAINTENANCE_MODE cfg);
      destruct t; reflexivity.
  - intros st0. rewrite check_error_rate_eq. cbv zeta.
    destruct (_ <? _)%nat; [reflexivity|].
    destruct (request_window st0) as [|x w]; [reflexivity|].
    destruct (_ <? _)%float; [|reflexivity].
    destruct (float_gt_int _ _); rewrite events_triple;
      unfold due, sink_event;
      destruct (String.eqb (SLACK_WEBHOOK cfg) EmptyString || MAINTENANCE_MODE cfg);
      destruct t; reflexivity.
Qed.

End Sends.

(** C3: in any run, from any state, the cooldown tests of each category
    follow the rule with the category's own time of last alert: a trigger
    passes exactly when its reading of the clock is more than [COOLDOWN]
    after the last dispatch of the category (time 0 before any); and the
    alerts dispatched, to the webhook or dropped at a disabled sink, are
    those of the triggers that passed, one each and in order, and no other.
    Hence two successive alerts of a category are more than [COOLDOWN]
    apart, and when a trigger dispatches, the next trigger of the category
    dispatches exactly when it comes more than [COOLDOWN] later. *)
Theorem cooldown_governs (cfg : config) (clock : nat -> float)
        (lines : list string) (st : state) (t : alert_type) :
  let evs := events (tail_log cfg clock lines st) in
  let tr := triggers t evs in
  governed (COOLDOWN cfg) (last_alert t st) tr
  /\ sends t evs = due cfg t tr
  /\ List.length (sends t evs) = List.length (dispatched tr)
  /\ spaced (COOLDOWN cfg) (last_alert t st) (dispatched tr)
  /\ (forall pre m1 t1 m2 t2 p2 post,
         tr = pre ++ (m1, t1, true) :: (m2, t2, p2) :: post ->
         p2 = float_gt_int (t2 - t1)%float (COOLDOWN cfg)
         /\ sends t evs
            = due cfg t pre ++ sink_event cfg m1 t
                :: (if p2 then [sink_event cfg m2 t] else []) ++ due cfg t post).
Proof.
  cbv zeta. destruct (tail_log_governs cfg clock t lines st) as [G _].
  pose proof (tail_log_sends cfg clock t lines st) as S.
  split; [exact G|]. split; [exact S|].
  split.
  { rewrite S. apply due_length. }
  split; [now apply governed_spaced|].
  intros pre m1 t1 m2 t2 p2 post E. rewrite S, E in *. split.
  - apply governed_app in G. destruct G as [_ G]. simpl in G. tauto.
  - rewrite due_app. f_equal. unfold due. simpl. now destruct p2.
Qed.

Lemma cooldown_governs_witness :
  let cfg := with_sink "https://hooks.example/T" false default_config in
  false = float_gt_int (1700000100 - 1700000000)%float (COOLDOWN cfg)
  /\ sends Failover_alert
           (events (tail_log cfg burst_clock flapping_lines initial_state))
     = [Posted "https://hooks.example/T" Failover_alert (Failover_message "blue" "green");
        Posted "https://hooks.example/T" Failover_alert (Failover_message "blue" "green")].
Proof.
  exact (proj2 (proj2 (proj2 (proj2
           (cooldown_governs (with_sink "https://hooks.example/T" false default_config)
                             burst_clock flapping_lines initial_state Failover_alert))))
           [] (Failover_message "blue" "green") 1700000000%float
           (Failover_message "green" "blue") 1700000100%float false
           [(Failover_message "blue" "green", 1700000500%float, true)] eq_refl).
Defined.

(** Three changes of pool at 1.7e9 seconds, 100 seconds later and 400
    seconds after that, with a webhook and the default cooldown of 300
    seconds: the second and the third trigger are more than the cooldown
    apart, and only two alerts reach the webhook; the second trigger, from
    green to blue, is not dispatched. *)
Lemma trigger_before_late_one_suppressed :
  let cfg := with_sink "https://hooks.example/T" false default_config in
  let evs := events (tail_log cfg burst_clock flapping_lines initial_state) in
  triggers Failover_alert evs
  = [(Failover_message "blue" "green", 1700000000%float, true);
     (Failover_message "green" "blue", 1700000100%float, false);
     (Failover_message "blue" "green", 1700000500%float, true)]
  /\ float_gt_int (1700000500 - 1700000100)%float (COOLDOWN cfg) = true
  /\ posted evs
     = [Posted "https://hooks.example/T" Failover_alert (Failover_message "blue" "green");
        Posted "https://hooks.example/T" Failover_alert (Failover_message "blue" "green")].
Proof. cbv zeta. repeat split; vm_compute; reflexivity. Qed.

(** ** A disabled sink *)

Section Muted.

Lemma mute_bind {A B : Type} (m1 m : M A) (f1 f : A -> M B) (st : state) :
  m1 st = mute (m st) ->
  (forall a st', f1 a st' = mute (f a st')) ->
  bind m1 f1 st = mute (bind m f st).
Proof.
  intros Hm Hf. unfold bind. rewrite Hm. unfold mute, events, final, outcome.
  destruct (m st) as [[ev1 st1] [a|e]]; cbn [fst snd]; [|reflexivity].
  rewrite Hf. unfold mute, events, final, outcome.
  destruct (f a st1) as [[ev2 st2] r2]; cbn [fst snd].
  now rewrite map_app.
Qed.

Lemma posted_desink (evs : list event) : posted (map desink evs) = [].
Proof.
  induction evs as [|e evs IH]; [reflexivity|].
  destruct e; simpl; exact IH.
Qed.

Variable cfg : config.
Variable clock : nat -> float.
Variable url : string.
Variable maintenance : bool.
Hypothesis disabled : sink_disabled (with_sink url maintenance cfg) = true.

Let off : config := with_sink url maintenance cfg.

Lemma sink_event_off (msg : message) (t : alert_type) :
  sink_event off msg t = Printed_suppressed t
  /\ desink (sink_event cfg msg t) = Printed_suppressed t.
Proof.
  unfold sink_event. unfold sink_disabled in disabled. unfold off.
  rewrite disabled. split; [reflexivity|].
  destruct (String.eqb (SLACK_WEBHOOK cfg) EmptyString || MAINTENANCE_MODE cfg);
    reflexivity.
Qed.

Lemma check_error_rate_muted (st : state) :
  check_error_rate off clock st = mute (check_error_rate cfg clock st).
Proof.
  rewrite !check_error_rate_eq. cbv zeta.
  change (WINDOW_SIZE off) with (WINDOW_SIZE cfg).
  change (ERROR_THRESHOLD off) with (ERROR_THRESHOLD cfg).
  change (COOLDOWN off) with (COOLDOWN cfg).
  change (error_message off) with (error_message cfg).
  destruct (List.length (request_window st) <? WINDOW_SIZE cfg)%nat; [reflexivity|].
  destruct (request_window st) as [|x w]; [reflexivity|].
  destruct (ERROR_THRESHOLD cfg <? _)%float; [|reflexivity].
  destruct (float_gt_int _ _); [|reflexivity].
  unfold mute. triples. cbn [map desink].
  destruct (sink_event_off (error_message cfg (x :: w)) Error_alert) as [-> ->].
  reflexivity.
Qed.

Lemma detect_failover_muted (pool : string) (st : state) :
  detect_failover off clock pool st = mute (detect_failover cfg clock pool st).
Proof.
  rewrite !detect_failover_eq.
  change (COOLDOWN off) with (COOLDOWN cfg).
  destruct (last_pool st) as [old|]; [|reflexivity].
  destruct (String.eqb pool old); [reflexivity|].
  cbv zeta. destruct (float_gt_int _ _); [|reflexivity].
  unfold mute. triples. cbn [map desink].
  destruct (sink_event_off (Failover_message old pool) Failover_alert) as [-> ->].
  reflexivity.
Qed.

Lemma process_log_line_muted (line : string) (st : state) :
  process_log_line off clock line st = mute (process_log_line cfg clock line st).
Proof.
  unfold process_log_line.
  destruct (search LOG_PATTERN line) as [m|]; [|reflexivity].
  cbv zeta. change (WINDOW_SIZE off) with (WINDOW_SIZE cfg).
  apply mute_bind; [reflexivity|]. intros _ st1.
  apply mute_bind; [reflexivity|]. intros _ st2.
  apply mute_bind; [reflexivity|]. intros _ st3.
  apply mute_bind.
  - destruct (valid_pool (group "pool" m)); [|reflexivity].
    apply mute_bind; [reflexivity|]. intros _ st4. apply detect_failover_muted.
  - intros _ st4. apply mute_bind; [reflexivity|]. intros _ st5.
    apply check_error_rate_muted.
Qed.

Lemma tail_log_muted (lines : list string) :
  forall st, tail_log off clock lines st = mute (tail_log cfg clock lines st).
Proof.
  induction lines as [|line rest IH]; intros st; [reflexivity|].
  simpl. apply mute_bind.
  - destruct (String.eqb line EmptyString); [reflexivity|].
    apply process_log_line_muted.
  - intros _ st'. apply IH.
Qed.

End Muted.

(** C8: with an empty webhook or in maintenance mode, [send_slack_alert]
    only prints that the alert is suppressed, and no request reaches the
    webhook in any run; everything else is as in the run of a configuration
    that differs in the sink only, where the alerts are posted: the same
    cooldown tests with the same outcomes, the same globals at the end, hence
    the same times of last alert, and the same result. In particular a
    trigger that passes its cooldown test sets the time of the last alert of
    its category to the reading of the clock. *)
Theorem disabled_sink_drops_alert (cfg : config) (clock : nat -> float)
        (url : string) (maintenance : bool) :
  sink_disabled (with_sink url maintenance cfg) = true ->
  let off := with_sink url maintenance cfg in
  (forall msg t st, send_slack_alert off msg t st = ([Printed_suppressed t], st, Ok tt))
  /\ (forall st, check_error_rate off clock st = mute (check_error_rate cfg clock st))
  /\ (forall pool st,
         detect_failover off clock pool st = mute (detect_failover cfg clock pool st))
  /\ (forall lines st,
         tail_log off clock lines st = mute (tail_log cfg clock lines st)
         /\ posted (events (tail_log off clock lines st)) = []
         /\ final (tail_log off clock lines st) = final (tail_log cfg clock lines st))
  /\ (forall st msg now,
         In (Triggered msg now true) (events (check_error_rate off clock st)) ->
         last_error_alert (final (check_error_rate off clock st)) = now)
  /\ (forall pool st msg now,
         In (Triggered msg now true) (events (detect_failover off clock pool st)) ->
         last_failover_alert (final (detect_failover off clock pool st)) = now).
Proof.
  intros Hoff. cbv zeta.
  split.
  { intros msg t st. rewrite send_slack_alert_eq.
    now destruct (sink_event_off cfg url maintenance Hoff msg t) as [-> _]. }
  split; [now apply check_error_rate_muted|].
  split; [intros pool st; now apply detect_failover_muted|].
  split.
  { intros lines st. rewrite (tail_log_muted cfg clock url maintenance Hoff).
    unfold mute. triples. split; [reflexivity|]. split; [apply posted_desink | reflexivity]. }
  split.
  - intros st msg now. rewrite check_error_rate_eq. cbv zeta.
    destruct (List.length (request_window st) <? _)%nat; [intros []|].
    destruct (request_window st) as [|x w]; [intros []|].
    destruct (ERROR_THRESHOLD _ <? _)%float; [|intros []].
    destruct (float_gt_int _ _); triples.
    + intros [H|[H|[]]]; [now inversion H|].
      destruct (sink_event_off cfg url maintenance Hoff
                  (error_message (with_sink url maintenance cfg) (x :: w)) Error_alert)
        as [E _].
      rewrite E in H. discriminate.
    + intros [H|[]]. inversion H.
  - intros pool st msg now. rewrite detect_failover_eq.
    destruct (last_pool st) as [old|]; [|triples; intros [H|[]]; discriminate].
    destruct (String.eqb pool old); [intros []|].
    cbv zeta. destruct (float_gt_int _ _); triples.
    + intros [H|[H|[H|[]]]]; [now inversion H| |discriminate].
      destruct (sink_event_off cfg url maintenance Hoff
                  (Failover_message old pool) Failover_alert) as [E _].
      rewrite E in H. discriminate.
    + intros [H|[]]. inversion H.
Qed.

Lemma disabled_sink_drops_alert_witness :
  let off := with_sink "https://hooks.example/T" true small_config in
  let st := State None 0%float 0%float [500; 503; 200] 0 in
  check_error_rate off sample_clock st
  = mute (check_error_rate small_config sample_clock st)
  /\ events (check_error_rate off sample_clock st)
     = [Triggered (error_message off [500; 503; 200]) 1700000000%float true;
        Printed_suppressed Error_alert]
  /\ last_error_alert (final (check_error_rate off sample_clock st)) = 1700000000%float
  /\ posted (events (tail_log off sample_clock flapping_lines initial_state)) = [].
Proof.
  cbv zeta.
  pose proof (disabled_sink_drops_alert small_config sample_clock
                "https://hooks.example/T" true eq_refl) as H.
  cbv zeta in H. destruct H as (_ & Hc & _ & Ht & _).
  split; [apply Hc|]. split; [reflexivity|]. split; [reflexivity|].
  apply (Ht flapping_lines initial_state).
Defined.

(** * Further properties *)

(** ** What the groups of a match hold *)

Section Groups.

Local Open Scope string_scope.

Lemma lstrip_nonspace (s : string) : all_in NonSpace s -> Text.lstrip s = s.
Proof.
  destruct s as [|a s]; [reflexivity|]. simpl. intros [Ha _].
  apply negb_true_iff in Ha. now rewrite Ha.
Qed.

Lemma rstrip_nonspace (s : string) : all_in NonSpace s -> Text.rstrip s = s.
Proof.
  induction s as [|a s IH]; [reflexivity|]. simpl. intros [Ha Hs].
  rewrite (IH Hs). apply negb_true_iff in Ha. rewrite Ha. now destruct s.
Qed.

Lemma strip_nonspace (s : string) : all_in NonSpace s -> Text.strip s = s.
Proof.
  intros H. unfold Text.strip. rewrite lstrip_nonspace by assumption.
  now apply rstrip_nonspace.
Qed.

Lemma split_nonspace (sep : ascii) (s : string) :
  all_in NonSpace s -> Forall (all_in NonSpace) (Text.split sep s).
Proof.
  induction s as [|a s IH]; simpl.
  - intros _. repeat constructor.
  - intros [Ha Hs]. specialize (IH Hs).
    destruct (Ascii.eqb a sep).
    + constructor; [exact I | exact IH].
    + destruct (Text.split sep s) as [|h t].
      * repeat constructor. exact Ha.
      * inversion IH; subst. constructor; [split; assumption | assumption].
Qed.

Lemma last_item_nonspace (l : list string) :
  Forall (all_in NonSpace) l -> all_in NonSpace (Text.last_item l).
Proof.
  unfold Text.last_item. induction 1 as [|x l Hx Hl IH]; [exact I|].
  destruct l; [exact Hx | exact IH].
Qed.

(** X1: The pool of a matched line is never empty and holds no whitespace: the
    test of line 186 only ever turns away the sentinel ["-"]. *)
Theorem matched_pool_is_a_token (line : string) (m : captures) :
  search LOG_PATTERN line = Some m ->
  group "pool" m <> ""
  /\ all_in NonSpace (group "pool" m)
  /\ valid_pool (group "pool" m) = negb (String.eqb (group "pool" m) "-").
Proof.
  intros H. destruct (log_pattern_match _ _ H)
    as (pre & p & ws1 & r & ws2 & s & post & _ & [Hp Ap] & _ & _ & _ & _ & ->).
  change (group "pool" [("status", s); ("release", r); ("pool", p)]) with p.
  repeat split; try assumption.
  unfold valid_pool. destruct p; [contradiction | reflexivity].
Qed.

Lemma matched_pool_is_a_token_witness :
  valid_pool "blue" = negb (String.eqb "blue" "-").
Proof.
  exact (proj2 (proj2 (matched_pool_is_a_token
                         "pool=blue release=v1 upstream_status=200"
                         [("status", "200"); ("release", "v1"); ("pool", "blue")]
                         eq_refl))).
Defined.

(** X2: The status of a matched line holds no whitespace, so the [strip()] of
    line 174 never removes anything: the status is the int of what follows
    the last colon of the group, as it stands. *)
Theorem matched_status_needs_no_strip (line : string) (m : captures) :
  search LOG_PATTERN line = Some m ->
  let field := Text.last_item (Text.split ":" (group "status" m)) in
  all_in NonSpace (group "status" m)
  /\ Text.strip field = field
  /\ parse_status (group "status" m)
     = match Text.py_int field with Some status => status | None => 0 end.
Proof.
  intros H. destruct (log_pattern_match _ _ H)
    as (pre & p & ws1 & r & ws2 & s & post & _ & _ & _ & _ & _ & [Hs As] & ->).
  change (group "status" [("status", s); ("release", r); ("pool", p)]) with s.
  cbv zeta.
  assert (Hf : Text.strip (Text.last_item (Text.split ":" s))
               = Text.last_item (Text.split ":" s))
    by (apply strip_nonspace, last_item_nonspace, split_nonspace; exact As).
  split; [exact As|]. split; [exact Hf|].
  unfold parse_status. now rewrite Hf.
Qed.

Lemma matched_status_needs_no_strip_witness :
  parse_status "502:200"
  = match Text.py_int (Text.last_item (Text.split ":" "502:200")) with
    | Some status => status
    | None => 0
    end.
Proof.
  exact (proj2 (proj2 (matched_status_needs_no_strip
                         "pool=blue release=v1 upstream_status=502:200"
                         [("status", "502:200"); ("release", "v1"); ("pool", "blue")]
                         eq_refl))).
Defined.

End Groups.

(** ** The conversion of the status *)

Section Status.

Local Open Scope string_scope.

Lemma split_lacks (sep : ascii) (d : string) :
  lacks sep d = true -> Text.split sep d = [d].
Proof.
  induction d as [|a d IH]; [reflexivity|]. simpl.
  intros H. apply andb_true_iff in H. destruct H as [Ha Hd].
  apply negb_true_iff in Ha. rewrite Ha, (IH Hd). reflexivity.
Qed.

Lemma split_append (sep : ascii) (a d : string) :
  exists h t,
    Text.split sep (a ++ String sep d) = ((h :: t) ++ Text.split sep d)%list.
Proof.
  induction a as [|c a (h & t & IH)]; simpl.
  - rewrite Ascii.eqb_refl. now exists "", [].
  - destruct (Ascii.eqb c sep).
    + exists "", (h :: t). now rewrite IH.
    + rewrite IH. now exists (String c h), t.
Qed.

Lemma split_nonempty (sep : ascii) (s : string) : Text.split sep s <> [].
Proof.
  destruct s as [|a s]; simpl; [discriminate|].
  destruct (Ascii.eqb a sep); [discriminate|].
  destruct (Text.split sep s); discriminate.
Qed.

Lemma last_append_nonempty {T : Type} (l1 l2 : list T) (d : T) :
  l2 <> [] -> List.last (l1 ++ l2)%list d = List.last l2 d.
Proof.
  intros H2. induction l1 as [|x l1 IH]; [reflexivity|].
  simpl. destruct (l1 ++ l2)%list eqn:E; [|exact IH].
  apply app_eq_nil in E. destruct E. contradiction.
Qed.

Lemma last_field_append (a d : string) :
  Text.last_item (Text.split ":" (a ++ String ":" d))
  = Text.last_item (Text.split ":" d).
Proof.
  destruct (split_append ":" a d) as (h & t & ->).
  unfold Text.last_item. apply last_append_nonempty. apply split_nonempty.
Qed.

(** X3: Only what follows the last colon counts: the attempts before it are
    dropped, whatever they are; and a status that ends in a colon is 0. *)
Theorem status_is_last_attempt (earlier last : string) :
  lacks ":" last = true ->
  parse_status (earlier ++ ":" ++ last) = parse_status last
  /\ parse_status (earlier ++ ":") = 0.
Proof.
  intros Hl. unfold parse_status. split.
  - change (earlier ++ ":" ++ last) with (earlier ++ String ":" last).
    now rewrite last_field_append.
  - change (earlier ++ ":") with (earlier ++ String ":" "").
    rewrite last_field_append. reflexivity.
Qed.

Lemma status_is_last_attempt_witness :
  parse_status ("502:502" ++ ":" ++ "200") = parse_status "200"
  /\ parse_status ("502" ++ ":") = 0.
Proof. exact (status_is_last_attempt "502:502" "200" eq_refl). Defined.

(** Decimal digits, read by [int]. *)

Lemma digits_string_of_uint (u : Decimal.uint) :
  forall acc,
    Text.digits (DecimalString.NilEmpty.string_of_uint u) acc true
    = Some (acc * 10 ^ Z.of_N (DecimalPos.Unsigned.usize u)
            + Z.of_N (DecimalPos.Unsigned.of_lu (Decimal.rev u))).
Proof.
  induction u; intros acc;
    [simpl; f_equal; lia | ..];
    cbn [DecimalString.NilEmpty.string_of_uint Text.digits];
    (change (Text.is_digit _) with true; cbv iota);
    rewrite IHu; f_equal;
    match goal with
    | |- context [Decimal.rev (?D u)] =>
        change (Decimal.rev (D u)) with (Decimal.revapp u (D Decimal.Nil));
        rewrite (DecimalPos.Unsigned.of_lu_revapp u (D Decimal.Nil))
    end;
    cbn [DecimalPos.Unsigned.of_lu DecimalPos.Unsigned.usize];
    rewrite N.mul_0_r, ?N.add_0_r;
    rewrite N2Z.inj_succ, Z.pow_succ_r by lia;
    rewrite ?N2Z.inj_add, ?N2Z.inj_mul, ?N2Z.inj_pow;
    match goal with
    | |- context [Text.digit_value ?c] =>
        let v := eval vm_compute in (Text.digit_value c) in
        change (Text.digit_value c) with v
    end;
    cbn [Z.of_N]; ring.
Qed.

Lemma string_of_uint_plain (u : Decimal.uint) :
  all_in NonSpace (DecimalString.NilEmpty.string_of_uint u)
  /\ lacks ":" (DecimalString.NilEmpty.string_of_uint u) = true.
Proof.
  induction u as [|u [IH1 IH2]|u [IH1 IH2]|u [IH1 IH2]|u [IH1 IH2]|u [IH1 IH2]
                  |u [IH1 IH2]|u [IH1 IH2]|u [IH1 IH2]|u [IH1 IH2]|u [IH1 IH2]];
    simpl; repeat split; assumption.
Qed.

Lemma count_digits_string_of_uint (u : Decimal.uint) :
  Text.count_digits (DecimalString.NilEmpty.string_of_uint u)
  = String.length (DecimalString.NilEmpty.string_of_uint u).
Proof. induction u; simpl; congruence. Qed.

Lemma literal_string_of_uint (u : Decimal.uint) :
  u <> Decimal.Nil ->
  Text.literal (DecimalString.NilEmpty.string_of_uint u)
  = if (Text.int_max_str_digits
        <? String.length (DecimalString.NilEmpty.string_of_uint u))%nat
    then None else Some (Z.of_N (Pos.of_uint u)).
Proof.
  intros Hu. unfold Text.literal. rewrite count_digits_string_of_uint.
  replace (Text.digits (DecimalString.NilEmpty.string_of_uint u) 0 false)
    with (Text.digits (DecimalString.NilEmpty.string_of_uint u) 0 true)
    by (destruct u; [contradiction | reflexivity ..]).
  rewrite digits_string_of_uint, DecimalPos.Unsigned.of_uint_alt.
  replace (0 * 10 ^ Z.of_N (DecimalPos.Unsigned.usize u)
           + Z.of_N (DecimalPos.Unsigned.of_lu (Decimal.rev u)))
    with (Z.of_N (DecimalPos.Unsigned.of_lu (Decimal.rev u))) by lia.
  reflexivity.
Qed.

Lemma py_int_string_of_uint (u : Decimal.uint) :
  u <> Decimal.Nil ->
  Text.py_int (DecimalString.NilEmpty.string_of_uint u)
  = Text.literal (DecimalString.NilEmpty.string_of_uint u).
Proof.
  intros Hu. unfold Text.py_int.
  rewrite strip_nonspace by apply string_of_uint_plain.
  destruct u; [contradiction | reflexivity ..].
Qed.

(** [int(str(z))]: [z] itself within the cap on the digits, [ValueError]
    beyond it. *)
Lemma py_int_decimal (z : Z) :
  Text.py_int (decimal z)
  = if (Text.int_max_str_digits <? String.length (decimal (Z.abs z)))%nat
    then None else Some z.
Proof.
  unfold decimal. destruct z as [|p|p]; [reflexivity| |];
    cbn [Z.abs Z.to_int DecimalString.NilEmpty.string_of_int].
  - rewrite py_int_string_of_uint, literal_string_of_uint
      by apply DecimalPos.Unsigned.to_uint_nonnil.
    now rewrite DecimalPos.Unsigned.of_to.
  - unfold Text.py_int. rewrite strip_nonspace
      by (split; [reflexivity | apply string_of_uint_plain]).
    cbv iota beta.
    rewrite literal_string_of_uint by apply DecimalPos.Unsigned.to_uint_nonnil.
    rewrite DecimalPos.Unsigned.of_to.
    now destruct (_ <? _)%nat.
Qed.

Lemma decimal_plain (z : Z) :
  lacks ":" (decimal z) = true /\ all_in NonSpace (decimal z).
Proof.
  unfold decimal. destruct z as [|p|p]; [split; [reflexivity | repeat split]| |];
    cbn [Z.to_int DecimalString.NilEmpty.string_of_int lacks all_in];
    rewrite ?andb_true_l; split; try split; try reflexivity;
    apply string_of_uint_plain.
Qed.

Lemma parse_status_decimal (z : Z) :
  parse_status (decimal z)
  = if (Text.int_max_str_digits <? String.length (decimal (Z.abs z)))%nat
    then 0 else z.
Proof.
  unfold parse_status. rewrite (split_lacks ":" _ (proj1 (decimal_plain z))).
  cbn [Text.last_item List.last].
  rewrite strip_nonspace by apply decimal_plain.
  rewrite py_int_decimal. now destruct (_ <? _)%nat.
Qed.

(** X4: a status written in decimal notation with no more digits than
    [int] accepts, 4300, is read back as the number it denotes; written with
    more digits it makes [int] raise and is read as 0; and it is read the
    same after earlier attempts. *)
Theorem status_of_decimal (z : Z) (earlier : string) :
  parse_status (decimal z)
  = (if (Text.int_max_str_digits <? String.length (decimal (Z.abs z)))%nat
     then 0 else z)
  /\ parse_status (earlier ++ ":" ++ decimal z) = parse_status (decimal z).
Proof.
  split; [apply parse_status_decimal|].
  unfold parse_status.
  change (earlier ++ ":" ++ decimal z) with (earlier ++ String ":" (decimal z)).
  now rewrite last_field_append.
Qed.

End Status.

(** ** The window over a run *)

Section RunWindow.

(** X5: The statuses counted as errors (line 120) are those the console marks
    with a cross (line 182), and only those: the two tests at 500 agree. *)
Theorem cross_marks_counted_errors (w : list Z) :
  count_errors w
  = List.length (filter (fun status => is_failed (status_emoji status)) w)
  /\ (forall status, is_failed (status_emoji status) = (500 <=? status)).
Proof.
  assert (H : forall status, is_failed (status_emoji status) = (500 <=? status)).
  { intros status. unfold status_emoji.
    destruct (Z.ltb_spec status 400); [|destruct (Z.ltb_spec status 500)];
      simpl; symmetry; [apply Z.leb_gt | apply Z.leb_gt | apply Z.leb_le]; lia. }
  split; [|exact H]. unfold count_errors. f_equal.
  apply filter_ext. intros status. now rewrite H.
Qed.

(** X6: The window after any number of insertions: the most recent [capacity]
    statuses of what it held and was given, in arrival order; its length
    grows by one per insertion up to [capacity]; and once [capacity]
    statuses have been inserted, what it held before is forgotten. *)
Theorem window_is_recent_statuses (capacity : nat) (w statuses : list Z) :
  (List.length w <= capacity)%nat ->
  record_all capacity w statuses
  = skipn (List.length (w ++ statuses) - capacity) (w ++ statuses)
  /\ List.length (record_all capacity w statuses)
     = Nat.min capacity (List.length w + List.length statuses)
  /\ ((capacity <= List.length statuses)%nat ->
      record_all capacity w statuses
      = skipn (List.length statuses - capacity) statuses).
Proof.
  intros Hw. pose proof (record_all_skipn capacity statuses w Hw) as H.
  split; [exact H|]. split.
  - rewrite H, length_skipn, length_app. lia.
  - intros Hc. rewrite H, length_app, skipn_app.
    rewrite skipn_all2 by lia. cbn [app]. f_equal. lia.
Qed.

Lemma window_is_recent_statuses_witness :
  record_all 2 [200] [500; 404; 503] = [404; 503]
  /\ List.length (record_all 2 [200] [500; 404; 503]) = 2%nat.
Proof.
  destruct (window_is_recent_statuses 2 [200] [500; 404; 503] ltac:(simpl; lia))
    as (_ & Hlen & Hrec).
  split; [exact (Hrec ltac:(simpl; lia)) | exact Hlen].
Defined.

Variable cfg : config.
Variable clock : nat -> float.

Lemma tail_log_window (lines : list string) :
  (0 < WINDOW_SIZE cfg)%nat ->
  forall st,
    request_window (final (tail_log cfg clock lines st))
    = record_all (WINDOW_SIZE cfg) (request_window st) (flat_map line_status lines).
Proof.
  intros Hc. induction lines as [|line rest IH]; intros st; [reflexivity|].
  rewrite tail_log_cons by assumption. rewrite final_triple, IH.
  cbn [flat_map]. unfold record_all. rewrite fold_left_app. f_equal.
  unfold line_status. destruct (String.eqb line EmptyString); [reflexivity|].
  rewrite process_log_line_window.
  destruct (search LOG_PATTERN (Text.strip line)); reflexivity.
Qed.

End RunWindow.

(** With a capacity of 0 an insertion leaves the window empty: after
    capacity + 1 = 1 insertion the entry just inserted is not present. *)
Lemma zero_capacity_drops_newest :
  record_all 0 [] [503] = []
  /\ request_window
       (final (tail_log (Config EmptyString 2%float 0 300 false) sample_clock
                        ["pool=blue release=v1 upstream_status=503"%string]
                        initial_state)) = []
  /\ ~ In 503 (record_all 0 [] [503]).
Proof. repeat split. intros []. Qed.

(** C9: the window never holds more than its capacity, whatever is
    recorded, by single insertions, by runs of insertions and by runs of
    [tail_log]. With a capacity of at least one, the window after a run is
    what the insertions of the statuses of its matched lines give, and after
    capacity + 1 insertions into the empty window the first item is gone and
    the others, the newest last, are what the window holds. *)
Theorem window_bounded_fifo (capacity : nat) :
  (forall w x, (List.length w <= capacity)%nat ->
               (List.length (deque_append capacity w x) <= capacity)%nat)
  /\ (forall statuses, (List.length (record_all capacity [] statuses) <= capacity)%nat)
  /\ (forall cfg clock lines,
        WINDOW_SIZE cfg = capacity ->
        (List.length (request_window (final (tail_log cfg clock lines initial_state)))
         <= capacity)%nat)
  /\ ((0 < capacity)%nat ->
      (forall oldest middle newest,
          List.length (oldest :: middle ++ [newest]) = (capacity + 1)%nat ->
          record_all capacity [] (oldest :: middle ++ [newest]) = middle ++ [newest])
      /\ (forall cfg clock lines,
             WINDOW_SIZE cfg = capacity ->
             request_window (final (tail_log cfg clock lines initial_state))
             = record_all capacity [] (flat_map line_status lines))
      /\ (forall cfg clock lines oldest middle newest,
             WINDOW_SIZE cfg = capacity ->
             flat_map line_status lines = oldest :: middle ++ [newest] ->
             List.length (oldest :: middle ++ [newest]) = (capacity + 1)%nat ->
             request_window (final (tail_log cfg clock lines initial_state))
             = middle ++ [newest])).
Proof.
  split; [exact (deque_append_length capacity)|].
  split.
  { intros statuses. rewrite record_all_skipn by (simpl; lia).
    rewrite length_skipn. simpl. lia. }
  split.
  { intros cfg clock lines <-. apply tail_log_window_bounded. simpl. lia. }
  intros Hc.
  assert (Hfifo : forall oldest middle newest,
             List.length (oldest :: middle ++ [newest]) = (capacity + 1)%nat ->
             record_all capacity [] (oldest :: middle ++ [newest]) = middle ++ [newest]).
  { intros oldest middle newest Hlen.
    rewrite record_all_skipn by (simpl; lia).
    cbn [app]. rewrite Hlen.
    replace (capacity + 1 - capacity)%nat with 1%nat by lia. reflexivity. }
  assert (Hrun : forall cfg clock lines,
             WINDOW_SIZE cfg = capacity ->
             request_window (final (tail_log cfg clock lines initial_state))
             = record_all capacity [] (flat_map line_status lines)).
  { intros cfg clock lines <-. now rewrite tail_log_window. }
  split; [exact Hfifo|]. split; [exact Hrun|].
  intros cfg clock lines oldest middle newest Hcfg Hst Hlen.
  rewrite (Hrun cfg clock lines Hcfg), Hst. now apply Hfifo.
Qed.

Lemma window_bounded_fifo_witness :
  (List.length (deque_append 2 [200; 500]%Z 404%Z) <= 2)%nat
  /\ (List.length
        (request_window
           (final (tail_log default_config sample_clock
                            ["pool=blue release=v1 upstream_status=200"%string]
                            initial_state))) <= 200)%nat
  /\ record_all 2 [] (200 :: [500] ++ [404]) = [500] ++ [404]
  /\ request_window
       (final (tail_log small_config sample_clock
                        ["pool=blue release=v1 upstream_status=200"%string;
                         "pool=blue release=v1 upstream_status=500"%string;
                         "noise"%string;
                         "pool=blue release=v1 upstream_status=404"%string;
                         "pool=blue release=v1 upstream_status=503"%string]
                        initial_state))
     = [500; 404] ++ [503].
Proof.
  split; [|split; [|split]].
  - apply (proj1 (window_bounded_fifo 2)). simpl. lia.
  - apply (proj1 (proj2 (proj2 (window_bounded_fifo 200)))). reflexivity.
  - apply (proj1 (proj2 (proj2 (proj2 (window_bounded_fifo 2))) ltac:(lia)));
      reflexivity.
  - apply (proj2 (proj2 (proj2 (proj2 (proj2 (window_bounded_fifo 3))) ltac:(lia)))
             small_config sample_clock _ 200 [500; 404] 503);
      reflexivity.
Defined.

(** X7: After a run that started with an empty window, the window holds the
    statuses of the last [WINDOW_SIZE] matched lines, in arrival order. *)
Theorem run_window_is_recent_lines (cfg : config) (clock : nat -> float)
        (lines : list string) (st : state) :
  (0 < WINDOW_SIZE cfg)%nat ->
  request_window st = [] ->
  let statuses := flat_map line_status lines in
  request_window (final (tail_log cfg clock lines st))
  = skipn (List.length statuses - WINDOW_SIZE cfg) statuses.
Proof.
  intros Hc Hst. cbv zeta. rewrite tail_log_window by assumption.
  rewrite Hst.
  exact (record_all_skipn (WINDOW_SIZE cfg) (flat_map line_status lines) []
                          ltac:(simpl; lia)).
Qed.

Lemma run_window_is_recent_lines_witness :
  request_window (final (tail_log small_config sample_clock
                           ["pool=a release=r upstream_status=200"%string;
                            "pool=a release=r upstream_status=500"%string;
                            "noise"%string;
                            "pool=a release=r upstream_status=404"%string;
                            "pool=a release=r upstream_status=503"%string]
                           initial_state))
  = [500; 404; 503].
Proof.
  exact (run_window_is_recent_lines small_config sample_clock
           ["pool=a release=r upstream_status=200"%string;
            "pool=a release=r upstream_status=500"%string;
            "noise"%string;
            "pool=a release=r upstream_status=404"%string;
            "pool=a release=r upstream_status=503"%string]
           initial_state ltac:(vm_compute; lia) eq_refl).
Defined.

(** ** Warm-up and the empty window *)

Section WarmUp.

Variable cfg : config.
Variable clock : nat -> float.

Lemma process_log_line_error_triggers (line : string) (st : state) :
  (List.length (request_window st) + 1 < WINDOW_SIZE cfg)%nat ->
  triggers Error_alert (events (process_log_line cfg clock line st)) = [].
Proof.
  intros Hlen. rewrite process_log_line_eq.
  destruct (search LOG_PATTERN line) as [m|]; [|reflexivity].
  cbv zeta. rewrite events_triple. cbn [triggers]. rewrite triggers_app.
  cbn [triggers].
  set (st1 := recorded cfg (parse_status (group "status" m)) st).
  assert (Hf : triggers Error_alert (events (failover_part cfg clock (group "pool" m) st1)) = []
               /\ request_window (final (failover_part cfg clock (group "pool" m) st1))
                  = request_window st1).
  { unfold failover_part. destruct (valid_pool (group "pool" m)).
    - rewrite events_triple, final_triple. cbn [triggers].
      destruct (detect_failover_frame cfg clock (group "pool" m) st1)
        as (Hw & _ & _ & Ht). now split.
    - now split. }
  destruct Hf as [-> Hw]. cbn [app].
  rewrite check_error_rate_eq. cbv zeta. rewrite Hw.
  assert (Hshort : (List.length (request_window st1) < WINDOW_SIZE cfg)%nat).
  { unfold st1, recorded, set_request_window, deque_append. cbn [request_window].
    destruct (WINDOW_SIZE cfg <? _)%nat.
    - destruct (request_window st ++ _)%list eqn:E; simpl; [lia|].
      apply (f_equal (@List.length Z)) in E. rewrite length_app in E.
      simpl in E. lia.
    - rewrite length_app. simpl. lia. }
  apply Nat.ltb_lt in Hshort. now rewrite Hshort.
Qed.

Lemma process_log_line_window_grows (line : string) (st : state) :
  (List.length (request_window (final (process_log_line cfg clock line st)))
   <= List.length (request_window st) + 1)%nat.
Proof.
  rewrite process_log_line_window.
  destruct (search LOG_PATTERN line); [|lia].
  unfold deque_append. destruct (_ <? _)%nat.
  - destruct (request_window st ++ _)%list eqn:E; simpl; [lia|].
    apply (f_equal (@List.length Z)) in E. rewrite length_app in E.
    simpl in E. lia.
  - rewrite length_app. simpl. lia.
Qed.

Lemma warm_up_run (lines : list string) :
  forall st,
    (List.length (request_window st) + List.length lines < WINDOW_SIZE cfg)%nat ->
    triggers Error_alert (events (tail_log cfg clock lines st)) = []
    /\ outcome (tail_log cfg clock lines st) = Ok tt.
Proof.
  induction lines as [|line rest IH]; intros st Hlen; [split; reflexivity|].
  cbn [List.length] in Hlen.
  rewrite tail_log_cons by lia. rewrite events_triple, outcome_triple, triggers_app.
  set (o := (if String.eqb line EmptyString then ret tt
             else process_log_line cfg clock (Text.strip line)) st).
  assert (Ho : triggers Error_alert (events o) = []
               /\ (List.length (request_window (final o))
                   <= List.length (request_window st) + 1)%nat).
  { unfold o. destruct (String.eqb line EmptyString).
    - split; [reflexivity | unfold ret; rewrite final_triple; lia].
    - split; [apply process_log_line_error_triggers; lia
             | apply process_log_line_window_grows]. }
  destruct Ho as [-> Hw]. apply IH. lia.
Qed.

End WarmUp.

(** X8: From an empty window, a run of fewer than [WINDOW_SIZE] lines never
    tests the error rate against the cooldown, whatever the statuses: no
    error alert is possible before the window is full. *)
Theorem no_error_alert_during_warm_up (cfg : config) (clock : nat -> float)
        (lines : list string) (st : state) :
  request_window st = [] ->
  (List.length lines < WINDOW_SIZE cfg)%nat ->
  triggers Error_alert (events (tail_log cfg clock lines st)) = []
  /\ breaches (events (tail_log cfg clock lines st)) = []
  /\ last_error_alert (final (tail_log cfg clock lines st)) = last_error_alert st.
Proof.
  intros Hst Hlen.
  destruct (warm_up_run cfg clock lines st) as [Ht _]; [rewrite Hst; simpl; lia|].
  split; [exact Ht|].
  destruct (tail_log_governs cfg clock Error_alert lines st) as [_ Hl].
  rewrite Ht in Hl. split; [|exact Hl].
  clear - Ht. induction (events (tail_log cfg clock lines st)) as [|e evs IH];
    [reflexivity|].
  destruct e as [| | | | | | | |msg now passed]; simpl in *; try now apply IH.
  destruct msg; simpl in *; [now apply IH | discriminate].
Qed.

Lemma no_error_alert_during_warm_up_witness :
  triggers Error_alert
           (events (tail_log small_config sample_clock
                             ["pool=a release=r upstream_status=500"%string;
                              "pool=a release=r upstream_status=503"%string]
                             initial_state)) = [].
Proof.
  exact (proj1 (no_error_alert_during_warm_up small_config sample_clock
                  ["pool=a release=r upstream_status=500"%string;
                   "pool=a release=r upstream_status=503"%string]
                  initial_state eq_refl ltac:(vm_compute; lia))).
Defined.

(** X9: With [WINDOW_SIZE] set to 0 the window stays empty and the first
    matched line ends the run with [ZeroDivisionError]: the lines that
    follow it are never processed. *)
Theorem zero_window_ends_the_run (cfg : config) (clock : nat -> float)
        (line : string) (rest : list string) (st : state) :
  WINDOW_SIZE cfg = 0%nat ->
  request_window st = [] ->
  relevant line = true ->
  outcome (tail_log cfg clock (line :: rest) st) = Raise ZeroDivisionError
  /\ request_window (final (tail_log cfg clock (line :: rest) st)) = []
  /\ tail_log cfg clock (line :: rest) st = tail_log cfg clock [line] st.
Proof.
  intros Hc Hst Hrel. unfold relevant in Hrel.
  apply andb_true_iff in Hrel. destruct Hrel as [Hne Hm].
  apply negb_true_iff in Hne.
  assert (Hraise : outcome (process_log_line cfg clock (Text.strip line) st)
                   = Raise ZeroDivisionError
                   /\ request_window
                        (final (process_log_line cfg clock (Text.strip line) st)) = []).
  { rewrite process_log_line_window. rewrite process_log_line_eq.
    destruct (search LOG_PATTERN (Text.strip line)) as [m|]; [|discriminate].
    cbv zeta. rewrite outcome_triple.
    assert (Hw : deque_append (WINDOW_SIZE cfg) (request_window st)
                              (parse_status (group "status" m)) = [])
      by (rewrite Hc, Hst; reflexivity).
    split; [|exact Hw].
    rewrite check_error_rate_eq. cbv zeta.
    assert (Hf : request_window
                   (final (failover_part cfg clock (group "pool" m)
                             (recorded cfg (parse_status (group "status" m)) st))) = []).
    { unfold failover_part. destruct (valid_pool (group "pool" m)).
      - rewrite final_triple.
        destruct (detect_failover_frame cfg clock (group "pool" m)
                    (recorded cfg (parse_status (group "status" m)) st)) as (-> & _).
        exact Hw.
      - rewrite final_triple. exact Hw. }
    rewrite Hf, Hc. reflexivity. }
  destruct Hraise as [Hr Hw].
  assert (Hany : forall tail,
             tail_log cfg clock (line :: tail) st
             = (events (process_log_line cfg clock (Text.strip line) st),
                final (process_log_line cfg clock (Text.strip line) st),
                Raise ZeroDivisionError)).
  { intros tail. cbn [tail_log]. rewrite Hne.
    exact (bind_raise (process_log_line cfg clock (Text.strip line))
                      (fun _ => tail_log cfg clock tail) st ZeroDivisionError Hr). }
  rewrite (Hany rest), (Hany []). repeat split. exact Hw.
Qed.

Lemma zero_window_ends_the_run_witness :
  outcome (tail_log (Config EmptyString 2%float 0 300 false) sample_clock
                    ["pool=a release=r upstream_status=200"%string;
                     "pool=b release=r upstream_status=200"%string]
                    initial_state) = Raise ZeroDivisionError.
Proof.
  exact (proj1 (zero_window_ends_the_run
                  (Config EmptyString 2%float 0 300 false) sample_clock
                  "pool=a release=r upstream_status=200"%string
                  ["pool=b release=r upstream_status=200"%string]
                  initial_state eq_refl eq_refl eq_refl)).
Defined.

(** ** The detector over a run *)

Section RunDetector.

Variable cfg : config.
Variable clock : nat -> float.

Lemma failover_part_events (pool : string) (st : state) :
  failover_events (events (failover_part cfg clock pool st))
  = (if valid_pool pool then transitions (last_pool st) [pool] else [])
  /\ last_pool (final (failover_part cfg clock pool st))
     = if valid_pool pool then Some pool else last_pool st.
Proof.
  unfold failover_part. destruct (valid_pool pool); [|split; reflexivity].
  rewrite events_triple, final_triple. cbn [failover_events].
  rewrite detect_failover_events, detect_failover_tracks. split; [|reflexivity].
  simpl. destruct (last_pool st) as [old|]; [|reflexivity].
  destruct (String.eqb pool old); reflexivity.
Qed.

Lemma process_log_line_failover_events (line : string) (st : state) :
  failover_events (events (process_log_line cfg clock line st))
  = match search LOG_PATTERN line with
    | Some m => if valid_pool (group "pool" m)
                then transitions (last_pool st) [group "pool" m] else []
    | None => []
    end.
Proof.
  rewrite process_log_line_eq.
  destruct (search LOG_PATTERN line) as [m|]; [|reflexivity].
  cbv zeta. rewrite events_triple. cbn [failover_events].
  rewrite failover_events_app. cbn [failover_events].
  destruct (check_error_rate_frame cfg clock
              (final (failover_part cfg clock (group "pool" m)
                        (recorded cfg (parse_status (group "status" m)) st))))
    as (_ & _ & _ & _ & -> & _).
  rewrite app_nil_r.
  now destruct (failover_part_events (group "pool" m)
                  (recorded cfg (parse_status (group "status" m)) st)) as [-> _].
Qed.

Lemma transitions_app (a b : list string) :
  forall tracked,
    transitions tracked (a ++ b)
    = transitions tracked a ++ transitions (List.last (map Some a) tracked) b.
Proof.
  induction a as [|pool a IH]; intros tracked; [reflexivity|].
  assert (Hlast : forall t, List.last (map Some (pool :: a)) t
                            = List.last (map Some a) (Some pool)).
  { intros t. destruct a as [|next a]; [reflexivity|]. cbn [map].
    rewrite (last_cons_default (map Some a) (Some next) (Some pool) t).
    reflexivity. }
  rewrite Hlast. cbn [app transitions].
  destruct tracked as [old|]; [|apply IH].
  destruct (String.eqb pool old) eqn:E.
  - apply String.eqb_eq in E. subst old. apply IH.
  - cbn [app]. f_equal. apply IH.
Qed.

(** X10: Over a run, the failover events are exactly the changes in the
    sequence of valid pools of the matched lines, in order, starting from
    what was tracked; lines that are unmatched or carry the sentinel play no
    part. At the end the tracked pool is the last valid pool seen. *)
Theorem run_failovers_are_pool_changes (lines : list string) :
  (0 < WINDOW_SIZE cfg)%nat ->
  forall st,
    failover_events (events (tail_log cfg clock lines st))
    = transitions (last_pool st) (flat_map line_pool lines)
    /\ last_pool (final (tail_log cfg clock lines st))
       = List.last (map Some (flat_map line_pool lines)) (last_pool st).
Proof.
  intros Hc. induction lines as [|line rest IH]; intros st; [split; reflexivity|].
  rewrite tail_log_cons by assumption.
  rewrite events_triple, final_triple, failover_events_app.
  cbn [flat_map]. rewrite transitions_app, map_app.
  set (o := (if String.eqb line EmptyString then ret tt
             else process_log_line cfg clock (Text.strip line)) st).
  assert (Ho : failover_events (events o) = transitions (last_pool st) (line_pool line)
               /\ last_pool (final o) = List.last (map Some (line_pool line)) (last_pool st)).
  { unfold o, line_pool. destruct (String.eqb line EmptyString); [split; reflexivity|].
    rewrite process_log_line_failover_events, process_log_line_last_pool.
    destruct (search LOG_PATTERN (Text.strip line)) as [m|]; [|split; reflexivity].
    destruct (valid_pool (group "pool" m)); split; reflexivity. }
  destruct Ho as [He Hl]. destruct (IH (final o)) as [-> ->].
  rewrite He, Hl. split; [reflexivity|].
  destruct (map Some (flat_map line_pool rest)) eqn:E.
  - now rewrite app_nil_r.
  - rewrite last_append_nonempty by discriminate. apply last_cons_default.
Qed.

End RunDetector.


Lemma run_failovers_are_pool_changes_witness :
  failover_events
    (events (tail_log default_config sample_clock
                      ["pool=blue release=v1 upstream_status=200"%string;
                       "pool=- release=v1 upstream_status=502"%string;
                       "pool=blue release=v1 upstream_status=200"%string;
                       "pool=green release=v1 upstream_status=200"%string]
                      initial_state))
  = [("blue"%string, "green"%string)].
Proof.
  exact (proj1 (run_failovers_are_pool_changes default_config sample_clock
                  ["pool=blue release=v1 upstream_status=200"%string;
                   "pool=- release=v1 upstream_status=502"%string;
                   "pool=blue release=v1 upstream_status=200"%string;
                   "pool=green release=v1 upstream_status=200"%string]
                  ltac:(vm_compute; lia) initial_state)).
Defined.

(** X11: Replaying a line: whatever the line and the state, processing the same
    line a second time right away produces no failover event. *)
Theorem replayed_line_is_no_failover (cfg : config) (clock : nat -> float)
        (line : string) (st : state) :
  failover_events
    (events (process_log_line cfg clock line
                              (final (process_log_line cfg clock line st)))) = [].
Proof.
  rewrite process_log_line_failover_events.
  destruct (search LOG_PATTERN line) as [m|] eqn:E; [|reflexivity].
  destruct (valid_pool (group "pool" m)) eqn:Hv; [|reflexivity].
  rewrite process_log_line_last_pool, E, Hv. simpl.
  now rewrite String.eqb_refl.
Qed.

(** X12: The two checks keep to their own state: the error-rate check never
    touches the tracked pool, the time of the last failover alert or the
    window, and never produces a failover trigger; the failover detector
    never touches the window or the time of the last error alert, and never
    produces an error trigger. *)
Theorem checks_keep_to_their_state (cfg : config) (clock : nat -> float) (st : state) :
  (let o := check_error_rate cfg clock st in
   last_pool (final o) = last_pool st
   /\ last_failover_alert (final o) = last_failover_alert st
   /\ request_window (final o) = request_window st
   /\ triggers Failover_alert (events o) = [])
  /\ (forall pool,
         let o := detect_failover cfg clock pool st in
         request_window (final o) = request_window st
         /\ last_error_alert (final o) = last_error_alert st
         /\ triggers Error_alert (events o) = []).
Proof.
  split.
  - destruct (check_error_rate_frame cfg clock st) as (Hw & Hl & Hf & _ & _ & Ht).
    cbv zeta. auto.
  - intros pool.
    destruct (detect_failover_frame cfg clock pool st) as (Hw & Hl & _ & Ht).
    cbv zeta. auto.
Qed.

(** ** Runs in pieces *)

Section Pieces.

Lemma bind_assoc {A B C : Type} (m : M A) (f : A -> M B) (g : B -> M C) (st : state) :
  bind (bind m f) g st = bind m (fun a => bind (f a) g) st.
Proof.
  unfold bind. destruct (m st) as [[ev1 st1] [a|e]]; [|reflexivity].
  destruct (f a st1) as [[ev2 st2] [b|e]]; [|reflexivity].
  destruct (g b st2) as [[ev3 st3] r]. now rewrite app_assoc.
Qed.

Lemma bind_ext {A B : Type} (m : M A) (f g : A -> M B) (st : state) :
  (forall a st', f a st' = g a st') -> bind m f st = bind m g st.
Proof.
  intros H. unfold bind. destruct (m st) as [[ev1 st1] [a|e]]; [|reflexivity].
  now rewrite H.
Qed.

Lemma bind_skip {A B : Type} (m : M A) (f : A -> M B) (st : state) (a : A) :
  m st = ([], st, Ok a) -> bind m f st = f a st.
Proof.
  intros H. unfold bind. rewrite H. now destruct (f a st) as [[ev2 st2] r].
Qed.

Variable cfg : config.
Variable clock : nat -> float.

Lemma tail_log_app (a b : list string) :
  forall st,
    tail_log cfg clock (a ++ b) st
    = bind (tail_log cfg clock a) (fun _ => tail_log cfg clock b) st.
Proof.
  induction a as [|line a IH]; intros st.
  - symmetry. now apply bind_skip with (a := tt).
  - cbn [app tail_log]. rewrite bind_assoc. apply bind_ext. intros _ st'. apply IH.
Qed.

(** X14: Lines that are empty or in which [LOG_PATTERN] is not found are
    transparent: a run with them is, event for event and global for global,
    the run without them. *)
Theorem noise_lines_are_transparent (lines : list string) :
  forall st, tail_log cfg clock lines st = tail_log cfg clock (filter relevant lines) st.
Proof.
  induction lines as [|line rest IH]; intros st; [reflexivity|].
  cbn [filter]. destruct (relevant line) eqn:Hrel.
  - cbn [tail_log]. apply bind_ext. intros _ st'. apply IH.
  - cbn [tail_log]. rewrite <- IH. apply bind_skip with (a := tt).
    unfold relevant in Hrel. destruct (String.eqb line EmptyString); [reflexivity|].
    unfold process_log_line.
    destruct (search LOG_PATTERN (Text.strip line)); [discriminate | reflexivity].
Qed.

End Pieces.

(** X13: A log processed in two batches is processed as in one: if the first
    batch ends normally, the second continues from the globals it left, and
    the events of the two follow each other; if the first batch ends with an
    exception, the second is not processed at all. *)
Theorem run_in_two_batches (cfg : config) (clock : nat -> float)
        (first second : list string) (st : state) :
  (outcome (tail_log cfg clock first st) = Ok tt ->
   let st1 := final (tail_log cfg clock first st) in
   tail_log cfg clock (first ++ second) st
   = (events (tail_log cfg clock first st) ++ events (tail_log cfg clock second st1),
      final (tail_log cfg clock second st1),
      outcome (tail_log cfg clock second st1)))
  /\ (forall e, outcome (tail_log cfg clock first st) = Raise e ->
                tail_log cfg clock (first ++ second) st = tail_log cfg clock first st).
Proof.
  split.
  - intros Hok. cbv zeta. rewrite tail_log_app.
    exact (bind_ok (tail_log cfg clock first) (fun _ => tail_log cfg clock second)
                   st tt Hok).
  - intros e He. rewrite tail_log_app.
    rewrite (bind_raise (tail_log cfg clock first) (fun _ => tail_log cfg clock second)
                        st e He).
    rewrite <- He. unfold events, final, outcome.
    now destruct (tail_log cfg clock first st) as [[ev1 st1] r].
Qed.

Lemma run_in_two_batches_witness :
  tail_log default_config sample_clock
           (["pool=blue release=v1 upstream_status=200"%string]
              ++ ["pool=green release=v1 upstream_status=200"%string]) initial_state
  = (events (tail_log default_config sample_clock
                      ["pool=blue release=v1 upstream_status=200"%string] initial_state)
       ++ events (tail_log default_config sample_clock
                           ["pool=green release=v1 upstream_status=200"%string]
                           (State (Some "blue"%string) 0%float 0%float [200] 0)),
     State (Some "green"%string) 1700000000%float 0%float [200; 200] 1, Ok tt).
Proof.
  exact (proj1 (run_in_two_batches default_config sample_clock
                  ["pool=blue release=v1 upstream_status=200"%string]
                  ["pool=green release=v1 upstream_status=200"%string]
                  initial_state) eq_refl).
Defined.


(** ** The clock and the sink over a run *)

Section Traces.

Variable cfg : config.
Variable clock : nat -> float.

Lemma readings_app (a b : list event) : readings (a ++ b) = readings a ++ readings b.
Proof.
  induction a as [|e a IH]; [reflexivity|].
  destruct e; simpl; try exact IH. now rewrite IH.
Qed.

Lemma passed_app (a b : list event) : passed (a ++ b) = passed a ++ passed b.
Proof.
  induction a as [|e a IH]; [reflexivity|].
  destruct e as [| | | | | | | |msg now p]; simpl; try exact IH.
  destruct p; simpl; [now rewrite IH | exact IH].
Qed.

Lemma sink_events_app (a b : list event) :
  sink_events (a ++ b) = sink_events a ++ sink_events b.
Proof.
  induction a as [|e a IH]; [reflexivity|].
  destruct e; simpl; try exact IH; now rewrite IH.
Qed.

End Traces.

(** X15: The clock is read when a change of pool or a breach is found, and then
    only: in a run the [k]-th trigger carries the [k]-th reading that follows
    those already made, and the number of readings made grows by the number
    of triggers. A run without triggers never reads the clock. *)
Theorem clock_is_read_once_per_trigger (cfg : config) (clock : nat -> float)
        (lines : list string) (st : state) :
  let o := tail_log cfg clock lines st in
  readings (events o) = map clock (seq (reads st) (List.length (readings (events o))))
  /\ reads (final o) = (reads st + List.length (readings (events o)))%nat.
Proof.
  cbv zeta.
  apply (tail_log_trace cfg clock
           (fun st evs st' =>
              readings evs = map clock (seq (reads st) (List.length (readings evs)))
              /\ reads st' = (reads st + List.length (readings evs))%nat));
    try (intros; simpl; split; [reflexivity | lia]).
  - intros st0 e1 st1 e2 st2 [R1 N1] [R2 N2].
    rewrite readings_app, length_app, seq_app, map_app, <- N1, <- R1, <- R2.
    split; [reflexivity | lia].
  - intros pool st0. rewrite detect_failover_eq.
    destruct (last_pool st0) as [old|];
      [|triples; simpl; split; [reflexivity | lia]].
    destruct (String.eqb pool old); [triples; simpl; split; [reflexivity | lia]|].
    cbv zeta. destruct (float_gt_int _ _); triples.
    + unfold sink_event.
      destruct (String.eqb (SLACK_WEBHOOK cfg) EmptyString || MAINTENANCE_MODE cfg);
        simpl; (split; [reflexivity | lia]).
    + simpl. split; [reflexivity | lia].
  - intros st0. rewrite check_error_rate_eq. cbv zeta.
    destruct (_ <? _)%nat; [triples; simpl; split; [reflexivity | lia]|].
    destruct (request_window st0) as [|x w];
      [triples; simpl; split; [reflexivity | lia]|].
    destruct (_ <? _)%float; [|triples; simpl; split; [reflexivity | lia]].
    destruct (float_gt_int _ _); triples.
    + unfold sink_event.
      destruct (String.eqb (SLACK_WEBHOOK cfg) EmptyString || MAINTENANCE_MODE cfg);
        simpl; (split; [reflexivity | lia]).
    + simpl. split; [reflexivity | lia].
Qed.

(** X16: [send_slack_alert] is called once for every cooldown test that passes,
    with what the test was to report and under its category, and never
    otherwise: over a run, the requests to the webhook and the console lines
    of dropped alerts are those of the tests that passed, in order. *)
Theorem one_send_per_passed_trigger (cfg : config) (clock : nat -> float)
        (lines : list string) (st : state) :
  sink_events (events (tail_log cfg clock lines st))
  = map (fun msg => sink_event cfg msg (category msg))
        (passed (events (tail_log cfg clock lines st))).
Proof.
  apply (tail_log_trace cfg clock
           (fun _ evs _ =>
              sink_events evs
              = map (fun msg => sink_event cfg msg (category msg)) (passed evs))).
  - reflexivity.
  - intros st0 e1 st1 e2 st2 H1 H2.
    now rewrite sink_events_app, passed_app, map_app, H1, H2.
  - intros pool st0. rewrite detect_failover_eq.
    destruct (last_pool st0) as [old|]; [|reflexivity].
    destruct (String.eqb pool old); [reflexivity|].
    cbv zeta. destruct (float_gt_int _ _); rewrite events_triple; [|reflexivity].
    unfold sink_event.
    destruct (String.eqb (SLACK_WEBHOOK cfg) EmptyString || MAINTENANCE_MODE cfg);
      reflexivity.
  - intros st0. rewrite check_error_rate_eq. cbv zeta.
    destruct (_ <? _)%nat; [reflexivity|].
    destruct (request_window st0) as [|x w]; [reflexivity|].
    destruct (_ <? _)%float; [|reflexivity].
    destruct (float_gt_int _ _); rewrite events_triple; [|reflexivity].
    unfold sink_event.
    destruct (String.eqb (SLACK_WEBHOOK cfg) EmptyString || MAINTENANCE_MODE cfg);
      reflexivity.
  - reflexivity.
  - reflexivity.
  - reflexivity.
  - reflexivity.
Qed.

(** ** A threshold that is not a number *)

(** X17: [ERROR_RATE_THRESHOLD] set to [nan] or [inf], which [float()] accepts,
    turns the error-rate alert off: no rate is greater, so no run ever finds
    a breach. *)
Theorem unordered_threshold_never_breaches (cfg : config) (clock : nat -> float)
        (lines : list string) (st : state) :
  ERROR_THRESHOLD cfg = PrimFloat.nan \/ ERROR_THRESHOLD cfg = PrimFloat.infinity ->
  triggers Error_alert (events (tail_log cfg clock lines st)) = [].
Proof.
  intros Hthr.
  assert (Hlt : forall x, (ERROR_THRESHOLD cfg <? x)%float = false).
  { intros x. rewrite FloatAxioms.ltb_spec.
    destruct Hthr as [-> | ->].
    - reflexivity.
    - change (Prim2SF PrimFloat.infinity) with (S754_infinity false).
      destruct (Prim2SF x) as [|[]| |]; reflexivity. }
  apply (tail_log_trace cfg clock (fun _ evs _ => triggers Error_alert evs = []));
    try reflexivity.
  - intros st0 e1 st1 e2 st2 H1 H2. now rewrite triggers_app, H1, H2.
  - intros pool st0. now destruct (detect_failover_frame cfg clock pool st0) as (_ & _ & _ & H).
  - intros st0. rewrite check_error_rate_eq. cbv zeta.
    destruct (_ <? _)%nat; [reflexivity|].
    destruct (request_window st0) as [|x w]; [reflexivity|].
    now rewrite Hlt.
Qed.

Lemma unordered_threshold_never_breaches_witness :
  triggers Error_alert
           (events (tail_log (Config EmptyString PrimFloat.nan 1 300 false) sample_clock
                             ["pool=a release=r upstream_status=500"%string]
                             initial_state)) = [].
Proof.
  exact (unordered_threshold_never_breaches
           (Config EmptyString PrimFloat.nan 1 300 false) sample_clock
           ["pool=a release=r upstream_status=500"%string] initial_state
           (or_introl eq_refl)).
Defined.

(** ** What a well-formed line parses to *)

Section Exact.

Local Open Scope string_scope.

Context {R : Type}.

(** A greedy repetition followed by what cannot continue it takes all of
    it at the first try. *)
Lemma star_exact (c : cclass) (u rest : string) (k : string -> option R) (x : R) :
  all_in c u -> starts_outside c rest -> k rest = Some x ->
  star c (u ++ rest) k = Some x.
Proof.
  intros Hu Hrest Hk. induction u as [|a u IH]; simpl.
  - destruct rest as [|b rest]; [exact Hk|]. simpl in *. now rewrite Hrest.
  - destruct Hu as [-> Hu]. now rewrite (IH Hu).
Qed.

Lemma plus_exact (c : cclass) (u rest : string) (k : string -> option R) (x : R) :
  u <> "" -> all_in c u -> starts_outside c rest -> k rest = Some x ->
  plus c (u ++ rest) k = Some x.
Proof.
  intros Hne Hu Hrest Hk. destruct u as [|a u]; [contradiction|].
  simpl in *. destruct Hu as [-> Hu]. now apply star_exact.
Qed.

End Exact.

Section WellFormed.

Local Open Scope string_scope.

Lemma blank_starts_outside (ws rest : string) :
  blank ws -> starts_outside NonSpace (ws ++ rest).
Proof.
  intros [Hne Hall]. destruct ws as [|a ws]; [contradiction|].
  simpl in *. destruct Hall as [-> _]. reflexivity.
Qed.

Lemma record_matches_here (p ws1 r ws2 s post : string) :
  token p -> blank ws1 -> token r -> blank ws2 -> token s ->
  starts_outside NonSpace post ->
  match_here LOG_PATTERN
             ("pool=" ++ p ++ ws1 ++ "release=" ++ r ++ ws2
                      ++ "upstream_status=" ++ s ++ post)
  = Some [("status", s); ("release", r); ("pool", p)].
Proof.
  intros [Hp Ap] B1 [Hr Ar] B2 [Hs As] Hpost.
  unfold match_here, LOG_PATTERN.
  cbn [exec]. rewrite RegexFacts.strip_prefix_append.
  apply plus_exact; [assumption | assumption | now apply blank_starts_outside|].
  rewrite RegexFacts.take_append.
  destruct B1 as [H1 A1]. apply plus_exact; [assumption | assumption | reflexivity|].
  rewrite RegexFacts.strip_prefix_append.
  apply plus_exact; [assumption | assumption | now apply blank_starts_outside|].
  rewrite RegexFacts.take_append.
  destruct B2 as [H2 A2]. apply plus_exact; [assumption | assumption | reflexivity|].
  rewrite RegexFacts.strip_prefix_append.
  apply plus_exact; [assumption | assumption | assumption|].
  now rewrite RegexFacts.take_append.
Qed.

Lemma search_skips (pre rest : string) :
  lacks "p" pre = true -> search LOG_PATTERN (pre ++ rest) = search LOG_PATTERN rest.
Proof.
  induction pre as [|a pre IH]; [reflexivity|]. simpl lacks. intros H.
  apply andb_true_iff in H. destruct H as [Ha Hpre].
  apply negb_true_iff in Ha.
  change (String a pre ++ rest) with (String a (pre ++ rest)).
  cbn [search]. unfold match_here, LOG_PATTERN. cbn [exec strip_prefix].
  rewrite Ascii.eqb_sym, Ha. now apply IH.
Qed.

(** X18: a line that spells a record, after text without the letter p
    and before a whitespace or the end of the line, parses to exactly that
    record: the pool and the status text are taken verbatim, the pool up to
    the whitespace that follows it and the status up to the next whitespace. *)
Theorem well_formed_line_parses_verbatim (pre p ws1 r ws2 s post : string) :
  lacks "p" pre = true ->
  token p -> blank ws1 -> token r -> blank ws2 -> token s ->
  starts_outside NonSpace post ->
  search LOG_PATTERN
         (pre ++ "pool=" ++ p ++ ws1 ++ "release=" ++ r ++ ws2
              ++ "upstream_status=" ++ s ++ post)
  = Some [("status", s); ("release", r); ("pool", p)].
Proof.
  intros Hpre Hp B1 Hr B2 Hs Hpost. rewrite search_skips by assumption.
  pose proof (record_matches_here p ws1 r ws2 s post Hp B1 Hr B2 Hs Hpost) as H.
  destruct ("pool=" ++ p ++ ws1 ++ "release=" ++ r ++ ws2
                    ++ "upstream_status=" ++ s ++ post);
    cbn [search]; now rewrite H.
Qed.

Lemma well_formed_line_parses_verbatim_witness :
  search LOG_PATTERN
         ("10.0.0.1 [03/Nov] " ++ "pool=" ++ "blue" ++ " " ++ "release=" ++ "v1" ++ "  "
            ++ "upstream_status=" ++ "502:200" ++ " rt=0.01")
  = Some [("status", "502:200"); ("release", "v1"); ("pool", "blue")].
Proof.
  apply (well_formed_line_parses_verbatim
           "10.0.0.1 [03/Nov] " "blue" " " "v1" "  " "502:200" " rt=0.01");
    try reflexivity; (split; [discriminate | simpl; tauto]).
Defined.

End WellFormed.
